(** * Progress tracking subsystem of the puzzles site

    A shallow embedding of [src/utils/progressDataModels.js] (schema,
    validation, transformation, migration and integrity layers) and of the
    parts of [src/utils/progressService.js] that read and write the single
    persisted progress document. *)

From Stdlib Require Import String Ascii List ZArith Bool Lia.
Import ListNotations.
Open Scope string_scope.
Open Scope list_scope.
Set Warnings "-register-all".

(* ================================================================== *)
(** ** JavaScript values *)

(** The values the code handles: JSON data read back from storage, the
    application-side objects holding [Set]s, and the pending [Promise]
    that [getStorageData] returns while a retry is scheduled.  A plain
    object is the list of its own enumerable properties in order; numbers
    are integers (the code only stores timestamps).  Inherited properties
    of [Object.prototype] are not modelled. *)
Inductive jsval : Type :=
| JUndef
| JNull
| JBool (b : bool)
| JNum (n : Z)
| JStr (s : string)
| JArr (xs : list jsval)
| JSet (xs : list jsval)
| JObj (fields : list (string * jsval))
| JPromise.

(** [!!v] *)
Definition truthy (v : jsval) : bool :=
  match v with
  | JUndef | JNull => false
  | JBool b => b
  | JNum n => negb (Z.eqb n 0)
  | JStr s => negb (String.eqb s "")
  | _ => true
  end.

(** [typeof v === 'object'] *)
Definition typeof_object (v : jsval) : bool :=
  match v with
  | JNull | JArr _ | JSet _ | JObj _ | JPromise => true
  | _ => false
  end.

(** The guard [!(!v || typeof v !== 'object')] used throughout. *)
Definition is_obj (v : jsval) : bool := truthy v && typeof_object v.

Fixpoint assoc (k : string) (fs : list (string * jsval)) : jsval :=
  match fs with
  | [] => JUndef
  | (k', v) :: r => if String.eqb k k' then v else assoc k r
  end.

(** [v.k] on a value that is neither [null] nor [undefined]. *)
(** [o[k] = v]: an existing key keeps its position, a new one is appended.
    For [k = "__proto__"] JavaScript sets the prototype of [o] instead of
    adding a key; theorems that write a world record exclude that key. *)
Fixpoint obj_set (fs : list (string * jsval)) (k : string) (v : jsval)
  : list (string * jsval) :=
  match fs with
  | [] => [(k, v)]
  | (k', v') :: r =>
      if String.eqb k k' then (k', v) :: r else (k', v') :: obj_set r k v
  end.

Fixpoint digits_of (fuel : nat) (n : N) (acc : string) : string :=
  match fuel with
  | O => acc
  | S f =>
      let d := ascii_of_N (48 + N.modulo n 10) in
      let acc' := String d acc in
      if N.ltb n 10 then acc' else digits_of f (N.div n 10) acc'
  end.

(** Decimal rendering of an array index, as used for its property keys. *)
Definition index_key (i : nat) : string := digits_of (S i) (N.of_nat i) "".

(** [String(n)] of an integer-valued number (below 10^21, where JavaScript
    switches to exponent notation). *)
Definition number_string (n : Z) : string :=
  match n with
  | Z0 => "0"
  | Zpos p => digits_of (Pos.size_nat p) (Npos p) ""
  | Zneg p => String "-" (digits_of (Pos.size_nat p) (Npos p) "")
  end.

(** [String(v)], as a template literal renders [v]: an array is joined with
    commas, its [null] and [undefined] elements rendered empty. *)
Fixpoint js_string (v : jsval) : string :=
  match v with
  | JUndef => "undefined"
  | JNull => "null"
  | JBool b => if b then "true" else "false"
  | JNum n => number_string n
  | JStr s => s
  | JArr xs =>
      (fix join (xs : list jsval) : string :=
         match xs with
         | [] => ""
         | x :: r =>
             let ex := match x with JUndef | JNull => "" | _ => js_string x end in
             match r with
             | [] => ex
             | _ => (ex ++ "," ++ join r)%string
             end
         end) xs
  | JSet _ => "[object Set]"
  | JObj _ => "[object Object]"
  | JPromise => "[object Promise]"
  end.

(** [Object.entries(v)]. *)
Definition entries (v : jsval) : list (string * jsval) :=
  match v with
  | JObj fs => fs
  | JArr xs => combine (map index_key (seq 0 (length xs))) xs
  | _ => []
  end.

(** [v[k]] on a value that is neither [null] nor [undefined], for its own
    keys.  The members a plain object inherits from [Object.prototype]
    (see [inherited_name]) are not modelled: theorems that read a key [k]
    the object may not own assume [inherited_name k = false]. *)
Definition get (v : jsval) (k : string) : jsval :=
  match v with
  | JObj _ | JArr _ => assoc k (entries v)
  | _ => JUndef
  end.

(** The names of the members of [Object.prototype]: [o[k]] on a plain
    object that does not own [k] finds the inherited (truthy) member. *)
Definition inherited_name (k : string) : bool :=
  existsb (String.eqb k)
    ["constructor"; "__proto__"; "hasOwnProperty"; "isPrototypeOf";
     "propertyIsEnumerable"; "toString"; "toLocaleString"; "valueOf";
     "__defineGetter__"; "__defineSetter__"; "__lookupGetter__"; "__lookupSetter__"].

(** [[...v]]: arrays and sets yield their elements, strings their
    characters; anything else is not iterable. *)
Definition iter (v : jsval) : option (list jsval) :=
  match v with
  | JArr xs | JSet xs => Some xs
  | JStr s => Some (map (fun c => JStr (String c EmptyString)) (list_ascii_of_string s))
  | _ => None
  end.

(** SameValueZero, as used by [Set] and [Array.prototype.includes]; every
    array or object in a document is a distinct reference. *)
Definition same_value_zero (a b : jsval) : bool :=
  match a, b with
  | JUndef, JUndef | JNull, JNull => true
  | JBool x, JBool y => Bool.eqb x y
  | JNum x, JNum y => Z.eqb x y
  | JStr x, JStr y => String.eqb x y
  | _, _ => false
  end.

Definition js_includes (xs : list jsval) (x : jsval) : bool :=
  existsb (same_value_zero x) xs.

(** [new Set(xs)] over values, insertion order kept. *)
Fixpoint set_of_vals (acc xs : list jsval) : list jsval :=
  match xs with
  | [] => acc
  | x :: r => set_of_vals (if js_includes acc x then acc else acc ++ [x]) r
  end.

(** [new Set(xs)] over strings. *)
Fixpoint set_add_all (acc xs : list string) : list string :=
  match xs with
  | [] => acc
  | x :: r =>
      set_add_all (if existsb (String.eqb x) acc then acc else acc ++ [x]) r
  end.

Definition new_Set (xs : list string) : list string := set_add_all [] xs.

(* ================================================================== *)
(** ** Exceptions *)

Inductive ProgressErrorType :=
| STORAGE_UNAVAILABLE
| STORAGE_QUOTA_EXCEEDED
| STORAGE_SECURITY_ERROR
| DATA_CORRUPTION
| VALIDATION_ERROR
| MIGRATION_ERROR
| UNKNOWN_ERROR.

(** A thrown error: its [name], [message], [code], and the [type] of a
    [ProgressError] ([None] for any other error class). *)
Record JsError := mkErr {
  ename : string;
  emsg : string;
  ecode : Z;
  etype : option ProgressErrorType
}.

Definition Error (m : string) : JsError := mkErr "Error" m 0 None.
Definition TypeError (m : string) : JsError := mkErr "TypeError" m 0 None.
Definition ProgressError (t : ProgressErrorType) (m : string) : JsError :=
  mkErr "ProgressError" m 0 (Some t).

Inductive result (A : Type) : Type :=
| Ok (a : A)
| Throw (e : JsError).
Arguments Ok {A} a.
Arguments Throw {A} e.

(* ================================================================== *)
(** ** Identifier validation ([validateWorldId], [validatePuzzleId]) *)

(** Characters removed by [String.prototype.trim]. *)
Definition is_ws (c : ascii) : bool :=
  match N_of_ascii c with
  | 32%N | 9%N | 10%N | 11%N | 12%N | 13%N | 160%N => true
  | _ => false
  end.

Fixpoint drop_ws (l : list ascii) : list ascii :=
  match l with
  | c :: r => if is_ws c then drop_ws r else l
  | [] => []
  end.

Definition trim (s : string) : string :=
  string_of_list_ascii
    (rev (drop_ws (rev (drop_ws (list_ascii_of_string s))))).

(** Membership in [[a-zA-Z0-9_-]]. *)
Definition id_char (c : ascii) : bool :=
  let n := N_of_ascii c in
  ((97 <=? n) && (n <=? 122))%N || ((65 <=? n) && (n <=? 90))%N
  || ((48 <=? n) && (n <=? 57))%N || (n =? 95)%N || (n =? 45)%N.

(** [s.replace(/[^a-zA-Z0-9_-]/g, '')] *)
Definition strip (s : string) : string :=
  string_of_list_ascii (filter id_char (list_ascii_of_string s)).

Definition validateWorldId (v : jsval) : result string :=
  match v with
  | JStr s =>
      if String.eqb (trim s) "" then Throw (Error "World ID must be a non-empty string")
      else let sanitized := strip (trim s) in
           if String.eqb sanitized "" then Throw (Error "World ID contains no valid characters")
           else Ok sanitized
  | _ => Throw (Error "World ID must be a non-empty string")
  end.

Definition validatePuzzleId (v : jsval) : result string :=
  match v with
  | JStr s =>
      if String.eqb (trim s) "" then Throw (Error "Puzzle ID must be a non-empty string")
      else let sanitized := strip (trim s) in
           if String.eqb sanitized "" then Throw (Error "Puzzle ID contains no valid characters")
           else Ok sanitized
  | _ => Throw (Error "Puzzle ID must be a non-empty string")
  end.

(** The [filter] callback of [validatePuzzleIdArray]. *)
Definition keep_id (v : jsval) : bool :=
  match v with
  | JStr s => negb (String.eqb (trim s) "")
  | _ => false
  end.

(** [.map(id => validatePuzzleId(id))]: the first failure propagates. *)
Fixpoint map_validatePuzzleId (xs : list jsval) : result (list string) :=
  match xs with
  | [] => Ok []
  | x :: r =>
      match validatePuzzleId x with
      | Throw e => Throw e
      | Ok p => match map_validatePuzzleId r with
                | Throw e => Throw e
                | Ok ps => Ok (p :: ps)
                end
      end
  end.

Definition validatePuzzleIdArray (v : jsval) : result (list string) :=
  match v with
  | JArr xs => map_validatePuzzleId (filter keep_id xs)
  | _ => Throw (Error "Puzzle IDs must be an array")
  end.

(* ================================================================== *)
(** ** Data model *)

Definition CURRENT_SCHEMA_VERSION : string := "1.0.0".

(** The application-side [WorldProgress]: both puzzle collections are
    [Set]s (duplicate-free, in insertion order).  [worldId] is a value
    because the last-resort object of [getWorldProgress] stores
    [worldId || 'unknown'] whatever its type. *)
Record WorldProgress := mkWP {
  wp_worldId : jsval;
  wp_solvedPuzzles : list string;
  wp_unlockedPuzzles : list string;
  wp_lastUpdated : Z;
  wp_version : string
}.

(** The object itself, as passed back into the code. *)
Definition wp_to_js (p : WorldProgress) : jsval :=
  JObj [("worldId", wp_worldId p);
        ("solvedPuzzles", JSet (map JStr (wp_solvedPuzzles p)));
        ("unlockedPuzzles", JSet (map JStr (wp_unlockedPuzzles p)));
        ("lastUpdated", JNum (wp_lastUpdated p));
        ("version", JStr (wp_version p))].

(** A [StorageWorldData] record. *)
Definition storage_record (solved unlocked : list string) (lastUpdated : Z) : jsval :=
  JObj [("solvedPuzzles", JArr (map JStr solved));
        ("unlockedPuzzles", JArr (map JStr unlocked));
        ("lastUpdated", JNum lastUpdated)].

Definition is_num (v : jsval) : bool := match v with JNum _ => true | _ => false end.
Definition is_arr (v : jsval) : bool := match v with JArr _ => true | _ => false end.
Definition is_str (v : jsval) : bool := match v with JStr _ => true | _ => false end.
Definition is_iterable (v : jsval) : bool :=
  match iter v with Some _ => true | None => false end.

Definition validateWorldProgress (progress : jsval) : bool :=
  is_obj progress
  && is_str (get progress "worldId")
  && is_num (get progress "lastUpdated")
  && truthy (get progress "solvedPuzzles")
  && truthy (get progress "unlockedPuzzles")
  && is_iterable (get progress "solvedPuzzles")
  && is_iterable (get progress "unlockedPuzzles").

Definition validateStorageWorldData (worldData : jsval) : bool :=
  is_obj worldData
  && is_arr (get worldData "solvedPuzzles")
  && is_arr (get worldData "unlockedPuzzles")
  && is_num (get worldData "lastUpdated").

Definition validateStorageData (data : jsval) : bool :=
  is_obj data
  && truthy (get data "version") && truthy (get data "worlds")
  && truthy (get data "metadata")
  && is_str (get data "version")
  && typeof_object (get data "worlds")
  && typeof_object (get data "metadata")
  && is_num (get (get data "metadata") "createdAt")
  && is_num (get (get data "metadata") "lastAccessed")
  && forallb (fun '(_, worldData) => validateStorageWorldData worldData)
             (entries (get data "worlds")).

(** [Date.now()] is the parameter [now] of every function that reads it. *)

Definition transformToStorageFormat (progress : jsval) : result jsval :=
  if negb (validateWorldProgress progress) then Throw (Error "Invalid WorldProgress object")
  else
    match iter (get progress "solvedPuzzles"), iter (get progress "unlockedPuzzles") with
    | Some solved, Some unlocked =>
        match validatePuzzleIdArray (JArr solved) with
        | Throw e => Throw e
        | Ok s =>
            match validatePuzzleIdArray (JArr unlocked) with
            | Throw e => Throw e
            | Ok u =>
                match get progress "lastUpdated" with
                | JNum t => Ok (storage_record s u t)
                | _ => Throw (Error "Invalid WorldProgress object")
                end
            end
        end
    | _, _ => Throw (TypeError "object is not iterable")
    end.

Definition transformFromStorageFormat (worldId : jsval) (storageData : jsval)
  : result WorldProgress :=
  if negb (validateStorageWorldData storageData) then Throw (Error "Invalid storage world data")
  else
    match validateWorldId worldId with
    | Throw e => Throw e
    | Ok sanitizedWorldId =>
        match validatePuzzleIdArray (get storageData "solvedPuzzles") with
        | Throw e => Throw e
        | Ok solved =>
            match validatePuzzleIdArray (get storageData "unlockedPuzzles") with
            | Throw e => Throw e
            | Ok unlocked =>
                match get storageData "lastUpdated" with
                | JNum t => Ok (mkWP (JStr sanitizedWorldId) (new_Set solved)
                                     (new_Set unlocked) t CURRENT_SCHEMA_VERSION)
                | _ => Throw (Error "Invalid storage world data")
                end
            end
        end
    end.

Definition createDefaultWorldProgress (now : Z) (worldId : jsval) : result WorldProgress :=
  match validateWorldId worldId with
  | Throw e => Throw e
  | Ok sanitizedWorldId =>
      Ok (mkWP (JStr sanitizedWorldId) [] (new_Set ["puzzle_1"]) now CURRENT_SCHEMA_VERSION)
  end.

Definition createDefaultStorageData (now : Z) : jsval :=
  JObj [("version", JStr CURRENT_SCHEMA_VERSION);
        ("worlds", JObj []);
        ("metadata", JObj [("createdAt", JNum now); ("lastAccessed", JNum now)])].

(** [progress.worldId || ''] *)
Definition or_empty (v : jsval) : jsval := if truthy v then v else JStr "".

Definition sanitizeWorldProgress (now : Z) (progress : jsval) : result WorldProgress :=
  if negb (is_obj progress) then Throw (Error "Progress must be an object")
  else
    match validateWorldId (or_empty (get progress "worldId")) with
    | Throw e => Throw e
    | Ok worldId =>
        let solvedPuzzles :=
          if truthy (get progress "solvedPuzzles") then
            match iter (get progress "solvedPuzzles") with
            | None => []                                  (* caught TypeError *)
            | Some solvedArray =>
                match validatePuzzleIdArray (JArr solvedArray) with
                | Ok validSolved => new_Set validSolved
                | Throw _ => []                           (* caught *)
                end
            end
          else [] in
        let unlockedPuzzles :=
          if truthy (get progress "unlockedPuzzles") then
            match iter (get progress "unlockedPuzzles") with
            | None => new_Set ["puzzle_1"]
            | Some unlockedArray =>
                match validatePuzzleIdArray (JArr unlockedArray) with
                | Ok validUnlocked => new_Set (new_Set ["puzzle_1"] ++ validUnlocked)
                | Throw _ => new_Set ["puzzle_1"]
                end
            end
          else new_Set ["puzzle_1"] in
        let lastUpdated :=
          match get progress "lastUpdated" with JNum t => t | _ => now end in
        Ok (mkWP (JStr worldId) solvedPuzzles unlockedPuzzles lastUpdated CURRENT_SCHEMA_VERSION)
    end.

(* ================================================================== *)
(** ** Migrations *)

Definition isMigrationNeeded (fromVersion : jsval) : bool :=
  negb (same_value_zero fromVersion (JStr CURRENT_SCHEMA_VERSION)).

(** [data.version || '0.0.0'] *)
Definition version_or_zero (v : jsval) : jsval := if truthy v then v else JStr "0.0.0".

Definition migrateToCurrentVersion (now : Z) (data : jsval) : jsval :=
  if negb (is_obj data) then createDefaultStorageData now
  else
    let currentVersion := version_or_zero (get data "version") in
    if negb (isMigrationNeeded currentVersion) then data
    else if negb (same_value_zero currentVersion (JStr "1.0.0"))
    then createDefaultStorageData now
    else data.

Definition default_world_record (now : Z) : jsval := storage_record [] ["puzzle_1"] now.

Definition migrateWorldData (now : Z) (worldData : jsval) : jsval :=
  if negb (validateStorageWorldData worldData) then default_world_record now
  else
    match validatePuzzleIdArray (get worldData "solvedPuzzles"),
          validatePuzzleIdArray (get worldData "unlockedPuzzles"),
          get worldData "lastUpdated" with
    | Ok s, Ok u, JNum t => storage_record s u t
    | _, _, _ => default_world_record now
    end.

(* ================================================================== *)
(** ** Integrity *)

(** The [for ... of Object.entries(data.worlds)] loop of [repairStorageData]. *)
Fixpoint repair_worlds (now : Z) (acc : list (string * jsval))
         (ws : list (string * jsval)) : list (string * jsval) :=
  match ws with
  | [] => acc
  | (worldId, worldData) :: r =>
      match validateWorldId (JStr worldId) with
      | Ok sanitizedWorldId =>
          repair_worlds now (obj_set acc sanitizedWorldId (migrateWorldData now worldData)) r
      | Throw _ => repair_worlds now acc r
      end
  end.

Definition repairStorageData (now : Z) (data : jsval) : jsval :=
  if negb (is_obj data) then createDefaultStorageData now
  else
    let version := match get data "version" with
                   | JStr s => JStr s
                   | _ => JStr CURRENT_SCHEMA_VERSION
                   end in
    let createdAt := match get (get data "metadata") "createdAt" with
                     | JNum n => JNum n
                     | _ => JNum now
                     end in
    let worlds :=
      if truthy (get data "worlds") && typeof_object (get data "worlds")
      then repair_worlds now [] (entries (get data "worlds")) else [] in
    JObj [("version", version);
          ("worlds", JObj worlds);
          ("metadata", JObj [("createdAt", createdAt); ("lastAccessed", JNum now)])].

(** The issue strings pushed by [checkIntegrity], one constructor per
    template literal. *)
Inductive Issue :=
| InvalidStructure                      (* 'Invalid storage data structure' *)
| VersionMismatch (v : jsval)           (* `Version mismatch: ${v} vs 1.0.0` *)
| InvalidWorldIdIssue (w : string)      (* `Invalid world ID: ${w}` *)
| InvalidWorldDataIssue (w : string)    (* `Invalid world data for: ${w}` *)
| DuplicateSolved (w : string)          (* `Duplicate solved puzzles in world: ${w}` *)
| DuplicateUnlocked (w : string)        (* `Duplicate unlocked puzzles in world: ${w}` *)
| SolvedNotUnlocked (p : jsval) (w : string).
                                        (* `Solved puzzle ${p} not unlocked in world: ${w}` *)

(** The body of the world loop of [checkIntegrity].  Past the two checks
    it reads [worldData.solvedPuzzles.length] and iterates the arrays; on
    a record whose puzzle fields are not arrays this throws (the loop only
    runs after [validateStorageData] accepted every record). *)
Definition check_world (worldId : string) (worldData : jsval) : result (list Issue) :=
  let i1 := match validateWorldId (JStr worldId) with
            | Ok _ => [] | Throw _ => [InvalidWorldIdIssue worldId] end in
  let i2 := if validateStorageWorldData worldData then [] else [InvalidWorldDataIssue worldId] in
  match get worldData "solvedPuzzles", get worldData "unlockedPuzzles" with
  | JArr solvedList, JArr unlockedList =>
      let solved := set_of_vals [] solvedList in
      let unlocked := set_of_vals [] unlockedList in
      let i3 := if Nat.eqb (length solved) (length solvedList) then []
                else [DuplicateSolved worldId] in
      let i4 := if Nat.eqb (length unlocked) (length unlockedList) then []
                else [DuplicateUnlocked worldId] in
      let i5 := flat_map (fun puzzleId =>
                  if js_includes unlockedList puzzleId then []
                  else [SolvedNotUnlocked puzzleId worldId]) solvedList in
      Ok (i1 ++ i2 ++ i3 ++ i4 ++ i5)
  | _, _ => Throw (TypeError "Cannot read properties of worldData")
  end.

Fixpoint check_worlds (ws : list (string * jsval)) : result (list Issue) :=
  match ws with
  | [] => Ok []
  | (worldId, worldData) :: r =>
      match check_world worldId worldData with
      | Throw e => Throw e
      | Ok is1 => match check_worlds r with
                  | Throw e => Throw e
                  | Ok is2 => Ok (is1 ++ is2)
                  end
      end
  end.

Definition checkIntegrity (data : jsval) : result (list Issue) :=
  if negb (validateStorageData data) then Ok [InvalidStructure]
  else
    let versionIssues :=
      if isMigrationNeeded (get data "version") then [VersionMismatch (get data "version")]
      else [] in
    match check_worlds (entries (get data "worlds")) with
    | Throw e => Throw e
    | Ok worldIssues => Ok (versionIssues ++ worldIssues)
    end.

(** The string [checkIntegrity] pushes for an issue. *)
Definition issue_text (i : Issue) : string :=
  match i with
  | InvalidStructure => "Invalid storage data structure"
  | VersionMismatch v => "Version mismatch: " ++ js_string v ++ " vs " ++ CURRENT_SCHEMA_VERSION
  | InvalidWorldIdIssue w => "Invalid world ID: " ++ w
  | InvalidWorldDataIssue w => "Invalid world data for: " ++ w
  | DuplicateSolved w => "Duplicate solved puzzles in world: " ++ w
  | DuplicateUnlocked w => "Duplicate unlocked puzzles in world: " ++ w
  | SolvedNotUnlocked p w =>
      "Solved puzzle " ++ js_string p ++ " not unlocked in world: " ++ w
  end%string.

(* ================================================================== *)
(** ** Structural equality *)

Fixpoint list_eqb_with {A} (f : A -> A -> bool) (xs ys : list A) : bool :=
  match xs, ys with
  | [], [] => true
  | x :: xs', y :: ys' => f x y && list_eqb_with f xs' ys'
  | _, _ => false
  end.

Fixpoint fields_eqb_with (f : jsval -> jsval -> bool)
         (xs ys : list (string * jsval)) : bool :=
  match xs, ys with
  | [], [] => true
  | (k, x) :: xs', (k', y) :: ys' => String.eqb k k' && f x y && fields_eqb_with f xs' ys'
  | _, _ => false
  end.

(** Used for [migratedData !== data] in [getStorageData]:
    [migrateToCurrentVersion] returns either its argument or a new default
    document of another version, so structural and reference equality agree
    there. *)
Fixpoint jsval_eqb (a b : jsval) : bool :=
  match a, b with
  | JUndef, JUndef | JNull, JNull | JPromise, JPromise => true
  | JBool x, JBool y => Bool.eqb x y
  | JNum x, JNum y => Z.eqb x y
  | JStr x, JStr y => String.eqb x y
  | JArr xs, JArr ys | JSet xs, JSet ys => list_eqb_with jsval_eqb xs ys
  | JObj fs, JObj gs => fields_eqb_with jsval_eqb fs gs
  | _, _ => false
  end.

(* ================================================================== *)
(** ** The progress service ([ProgressService] in progressService.js) *)

(** The value held by the storage medium under [STORAGE_KEY]: nothing,
    the JSON text of a value, or text that does not parse. *)
Inductive Slot :=
| SlotEmpty
| SlotText (v : jsval)
| SlotGarbage.

(** Callbacks scheduled with [setTimeout] and not yet run. *)
Inductive Timer :=
| TRetryGetStorageData (retryCount : nat)
| TRetrySave (data : jsval) (fromStorageEvent : bool) (retryCount : nat)
| TResetUpdatingFlag
| TDebouncedSave (worldId : string) (progress : WorldProgress)
| TRetryImmediateSave (worldId : string) (progress : WorldProgress) (retryCount : nat).

(** The fields of a service instance that the operations below touch, the
    medium's slot, and what the subscribers have been sent:
    [progressEvents] holds the arguments of [notifyProgressChange] and
    [errorEvents] those of [notifyErrorListeners], oldest first. *)
Record Service := mkService {
  isStorageAvailable : bool;
  inMemoryStorage : jsval;
  slot : Slot;
  isUpdatingFromStorageEvent : bool;
  saveTimeouts : list (string * nat);
  timers : list (nat * Timer);
  nextTimerId : nat;
  progressEvents : list (jsval * WorldProgress);
  errorEvents : list JsError;
  lastError : option JsError;
  errorCount : nat
}.

(** State and exceptions. *)
Definition M (A : Type) : Type := Service -> result A * Service.

Definition ret {A} (a : A) : M A := fun s => (Ok a, s).
Definition bind {A B} (m : M A) (k : A -> M B) : M B :=
  fun s => match m s with
           | (Ok a, s') => k a s'
           | (Throw e, s') => (Throw e, s')
           end.
Definition throw {A} (e : JsError) : M A := fun s => (Throw e, s).
Definition try_catch {A} (m : M A) (h : JsError -> M A) : M A :=
  fun s => match m s with
           | (Throw e, s') => h e s'
           | r => r
           end.
Definition gets {A} (f : Service -> A) : M A := fun s => (Ok (f s), s).
Definition modify (f : Service -> Service) : M unit := fun s => (Ok tt, f s).
Definition lift {A} (r : result A) : M A := fun s => (r, s).

Notation "x <- c1 ;; c2" := (bind c1 (fun x => c2))
  (at level 61, c1 at next level, right associativity).
Notation "e1 ;; e2" := (bind e1 (fun _ => e2))
  (at level 61, right associativity).

Definition set_available (b : bool) (s : Service) : Service :=
  {| isStorageAvailable := b; inMemoryStorage := inMemoryStorage s; slot := slot s;
     isUpdatingFromStorageEvent := isUpdatingFromStorageEvent s;
     saveTimeouts := saveTimeouts s; timers := timers s; nextTimerId := nextTimerId s;
     progressEvents := progressEvents s; errorEvents := errorEvents s;
     lastError := lastError s; errorCount := errorCount s |}.

Definition set_memory (v : jsval) (s : Service) : Service :=
  {| isStorageAvailable := isStorageAvailable s; inMemoryStorage := v; slot := slot s;
     isUpdatingFromStorageEvent := isUpdatingFromStorageEvent s;
     saveTimeouts := saveTimeouts s; timers := timers s; nextTimerId := nextTimerId s;
     progressEvents := progressEvents s; errorEvents := errorEvents s;
     lastError := lastError s; errorCount := errorCount s |}.

Definition set_slot (v : Slot) (s : Service) : Service :=
  {| isStorageAvailable := isStorageAvailable s; inMemoryStorage := inMemoryStorage s;
     slot := v; isUpdatingFromStorageEvent := isUpdatingFromStorageEvent s;
     saveTimeouts := saveTimeouts s; timers := timers s; nextTimerId := nextTimerId s;
     progressEvents := progressEvents s; errorEvents := errorEvents s;
     lastError := lastError s; errorCount := errorCount s |}.

Definition set_updating (b : bool) (s : Service) : Service :=
  {| isStorageAvailable := isStorageAvailable s; inMemoryStorage := inMemoryStorage s;
     slot := slot s; isUpdatingFromStorageEvent := b;
     saveTimeouts := saveTimeouts s; timers := timers s; nextTimerId := nextTimerId s;
     progressEvents := progressEvents s; errorEvents := errorEvents s;
     lastError := lastError s; errorCount := errorCount s |}.

Definition set_saveTimeouts (m : list (string * nat)) (s : Service) : Service :=
  {| isStorageAvailable := isStorageAvailable s; inMemoryStorage := inMemoryStorage s;
     slot := slot s; isUpdatingFromStorageEvent := isUpdatingFromStorageEvent s;
     saveTimeouts := m; timers := timers s; nextTimerId := nextTimerId s;
     progressEvents := progressEvents s; errorEvents := errorEvents s;
     lastError := lastError s; errorCount := errorCount s |}.

Definition set_timers (ts : list (nat * Timer)) (n : nat) (s : Service) : Service :=
  {| isStorageAvailable := isStorageAvailable s; inMemoryStorage := inMemoryStorage s;
     slot := slot s; isUpdatingFromStorageEvent := isUpdatingFromStorageEvent s;
     saveTimeouts := saveTimeouts s; timers := ts; nextTimerId := n;
     progressEvents := progressEvents s; errorEvents := errorEvents s;
     lastError := lastError s; errorCount := errorCount s |}.

Definition push_progress (ev : jsval * WorldProgress) (s : Service) : Service :=
  {| isStorageAvailable := isStorageAvailable s; inMemoryStorage := inMemoryStorage s;
     slot := slot s; isUpdatingFromStorageEvent := isUpdatingFromStorageEvent s;
     saveTimeouts := saveTimeouts s; timers := timers s; nextTimerId := nextTimerId s;
     progressEvents := progressEvents s ++ [ev]; errorEvents := errorEvents s;
     lastError := lastError s; errorCount := errorCount s |}.

Definition push_error (e : JsError) (s : Service) : Service :=
  {| isStorageAvailable := isStorageAvailable s; inMemoryStorage := inMemoryStorage s;
     slot := slot s; isUpdatingFromStorageEvent := isUpdatingFromStorageEvent s;
     saveTimeouts := saveTimeouts s; timers := timers s; nextTimerId := nextTimerId s;
     progressEvents := progressEvents s; errorEvents := errorEvents s ++ [e];
     lastError := lastError s; errorCount := errorCount s |}.

Definition record_error (e : JsError) (s : Service) : Service :=
  {| isStorageAvailable := isStorageAvailable s; inMemoryStorage := inMemoryStorage s;
     slot := slot s; isUpdatingFromStorageEvent := isUpdatingFromStorageEvent s;
     saveTimeouts := saveTimeouts s; timers := timers s; nextTimerId := nextTimerId s;
     progressEvents := progressEvents s; errorEvents := errorEvents s;
     lastError := Some e; errorCount := errorCount s |}.

Definition count_error (s : Service) : Service :=
  {| isStorageAvailable := isStorageAvailable s; inMemoryStorage := inMemoryStorage s;
     slot := slot s; isUpdatingFromStorageEvent := isUpdatingFromStorageEvent s;
     saveTimeouts := saveTimeouts s; timers := timers s; nextTimerId := nextTimerId s;
     progressEvents := progressEvents s; errorEvents := errorEvents s;
     lastError := lastError s; errorCount := S (errorCount s) |}.

(** Each subscriber call is wrapped in its own try/catch, so notifying
    never throws. *)
Definition notifyProgressChange (worldId : jsval) (progress : WorldProgress) : M unit :=
  modify (push_progress (worldId, progress)).

Definition notifyErrorListeners (e : JsError) : M unit := modify (push_error e).

(** [setTimeout(cb, delay)]: the callback is queued, its id returned. *)
Definition setTimeout (t : Timer) : M nat :=
  fun s => (Ok (nextTimerId s),
            set_timers (timers s ++ [(nextTimerId s, t)]) (S (nextTimerId s)) s).

Definition clearTimeout (id : nat) : M unit :=
  fun s => (Ok tt,
            set_timers (filter (fun '(i, _) => negb (Nat.eqb i id)) (timers s))
                       (nextTimerId s) s).

Fixpoint assoc_nat (k : string) (m : list (string * nat)) : option nat :=
  match m with
  | [] => None
  | (k', v) :: r => if String.eqb k k' then Some v else assoc_nat k r
  end.

Fixpoint map_set (m : list (string * nat)) (k : string) (v : nat) : list (string * nat) :=
  match m with
  | [] => [(k, v)]
  | (k', v') :: r => if String.eqb k k' then (k', v) :: r else (k', v') :: map_set r k v
  end.

(** [v.k = x] as a statement: it throws on [null] and [undefined]; a named
    property put on a value that is not a plain object (an array, a
    promise) is not part of what [JSON.stringify] writes, and is dropped. *)
Definition put (v : jsval) (k : string) (x : jsval) : result jsval :=
  match v with
  | JUndef | JNull => Throw (TypeError "Cannot set properties of undefined")
  | JObj fs => Ok (JObj (obj_set fs k x))
  | _ => Ok v
  end.

(** [v.k] as an expression: it throws on [null] and [undefined]. *)
Definition getp (v : jsval) (k : string) : result jsval :=
  match v with
  | JUndef | JNull => Throw (TypeError "Cannot read properties of undefined")
  | _ => Ok (get v k)
  end.

(** [a || b] *)
Definition js_or (a b : jsval) : jsval := if truthy a then a else b.

Definition maxRetries : nat := 3.

(** [error.message.includes(sub)] *)
Fixpoint contains_sub (sub s : string) : bool :=
  match s with
  | EmptyString => String.eqb sub ""
  | String _ r => String.prefix sub s || contains_sub sub r
  end.

(** Thirty days in milliseconds, the age limit of [cleanupOldData]. *)
Definition THIRTY_DAYS : Z := 30 * 24 * 60 * 60 * 1000.

Definition StackOverflow : JsError :=
  mkErr "RangeError" "Maximum call stack size exceeded" 0 None.

Section Service.

(** [Date.now()] during the call. *)
Variable now : Z.

(** The storage medium: whether [localStorage.getItem] throws, whether
    [localStorage.setItem] throws for the JSON text of a document, and
    whether that text exceeds the 5MB limit checked before writing.
    [localStorage.removeItem] succeeds. *)
Variable getItem_error : option JsError.
Variable setItem_error : jsval -> option JsError.
Variable too_large : jsval -> bool.

Definition getItem : M Slot :=
  match getItem_error with
  | Some e => throw e
  | None => gets slot
  end.

Definition setItem (data : jsval) : M unit :=
  match setItem_error data with
  | Some e => throw e
  | None => modify (set_slot (SlotText data))
  end.

Definition removeItem : M unit := modify (set_slot SlotEmpty).

(** The mutually recursive storage layer.  [fuel] bounds the depth of the
    JavaScript call stack: when it runs out the call throws the engine's
    [RangeError], which the enclosing [try] blocks catch like any error. *)
Fixpoint getStorageData (fuel : nat) (retryCount : nat) : M jsval :=
  match fuel with
  | O => throw StackOverflow
  | S f =>
  avail <- gets isStorageAvailable ;;
  if negb avail then
    mem <- gets inMemoryStorage ;; ret (js_or mem (createDefaultStorageData now))
  else
  try_catch
    (stored <- getItem ;;
     match stored with
     | SlotEmpty =>
         let defaultData := createDefaultStorageData now in
         saveStorageData f defaultData false 0 ;;
         ret defaultData
     | SlotGarbage =>
         throw (ProgressError DATA_CORRUPTION "Storage data is corrupted (invalid JSON)")
     | SlotText data =>
         if negb (validateStorageData data) then
           let error := ProgressError VALIDATION_ERROR "Invalid storage data structure detected" in
           let repairedData := repairStorageData now data in
           saveStorageData f repairedData false 0 ;;
           notifyErrorListeners error ;;
           ret repairedData
         else
           try_catch
             (let migratedData := migrateToCurrentVersion now data in
              if negb (jsval_eqb migratedData data) then
                saveStorageData f migratedData false 0 ;;
                notifyErrorListeners (ProgressError MIGRATION_ERROR
                                        "Progress data migrated to current version") ;;
                ret migratedData
              else ret data)
             (fun _ => throw (ProgressError MIGRATION_ERROR "Failed to migrate storage data"))
     end)
    (fun error =>
       handled <- handleStorageError f error "getStorageData" retryCount ;;
       avail' <- gets isStorageAvailable ;;
       if handled && Nat.ltb retryCount maxRetries && avail' then
         (* the retry result is a Promise *)
         setTimeout (TRetryGetStorageData (S retryCount)) ;; ret JPromise
       else
         mem <- gets inMemoryStorage ;; ret (js_or mem (createDefaultStorageData now)))
  end

with saveStorageData (fuel : nat) (data : jsval) (fromStorageEvent : bool)
                     (retryCount : nat) : M unit :=
  match fuel with
  | O => throw StackOverflow
  | S f =>
  if negb (validateStorageData data) then
    let error := ProgressError VALIDATION_ERROR "Invalid data structure for storage" in
    notifyErrorListeners error ;;
    saved <- try_catch
      (let repairedData := repairStorageData now data in
       if validateStorageData repairedData then
         saveStorageData f repairedData fromStorageEvent retryCount ;; ret true
       else ret false)
      (fun _ => ret false) ;;
    if saved then ret tt else throw error
  else
  avail <- gets isStorageAvailable ;;
  if negb avail then modify (set_memory data)
  else
  try_catch
    ((if negb fromStorageEvent then modify (set_updating true) else ret tt) ;;
     (if too_large data then
        throw (ProgressError STORAGE_QUOTA_EXCEEDED "Data size exceeds reasonable limit")
      else ret tt) ;;
     setItem data ;;
     (if negb fromStorageEvent then setTimeout TResetUpdatingFlag ;; ret tt else ret tt))
    (fun error =>
       handled <- handleStorageError f error "saveStorageData" retryCount ;;
       avail' <- gets isStorageAvailable ;;
       if handled && Nat.ltb retryCount maxRetries && avail' then
         setTimeout (TRetrySave data fromStorageEvent (S retryCount)) ;; ret tt
       else
         modify (set_available false) ;;
         modify (set_memory data) ;;
         notifyErrorListeners (ProgressError STORAGE_UNAVAILABLE
                                 "Switched to in-memory storage due to save failures"))
  end

with handleStorageError (fuel : nat) (error : JsError) (operation : string)
                        (retryCount : nat) : M bool :=
  match fuel with
  | O => throw StackOverflow
  | S f =>
  modify count_error ;;
  let finish progressError handled :=
    modify (record_error progressError) ;;
    notifyErrorListeners progressError ;;
    ret handled in
  if String.eqb (ename error) "QuotaExceededError" || Z.eqb (ecode error) 22 then
    let progressError := ProgressError STORAGE_QUOTA_EXCEEDED
                           "Storage quota exceeded, attempting cleanup" in
    handled <- try_catch
      (cleanupOldData f ;;
       if Nat.ltb retryCount maxRetries then ret (Some true) else ret (Some false))
      (fun _ => fallbackToMemoryStorage f ;; ret (Some false)) ;;
    match handled with
    | Some true => ret true          (* returns before recording the error *)
    | _ => finish progressError true
    end
  else if String.eqb (ename error) "SecurityError" then
    let progressError := ProgressError STORAGE_SECURITY_ERROR
                           "Storage access denied (private mode?), using in-memory storage" in
    fallbackToMemoryStorage f ;;
    finish progressError true
  else if String.eqb (ename error) "SyntaxError" || contains_sub "JSON" (emsg error) then
    let progressError := ProgressError DATA_CORRUPTION
                           "Corrupted storage data detected, attempting repair" in
    handled <- repairCorruptedData f ;;
    finish progressError handled
  else
    let progressError := ProgressError UNKNOWN_ERROR
      ("Unexpected storage error during " ++ operation ++ ": " ++ emsg error)%string in
    handled <- (if Nat.ltb retryCount maxRetries then attemptStorageReset f
                else fallbackToMemoryStorage f ;; ret true) ;;
    finish progressError handled
  end

(** The code also appends a note to the message of the error it is given;
    that note is not modelled. *)
with fallbackToMemoryStorage (fuel : nat) : M unit :=
  match fuel with
  | O => throw StackOverflow
  | S f =>
  mem <- gets inMemoryStorage ;;
  existingData <- (if truthy mem then ret mem else getStorageDataSafe f) ;;
  modify (set_available false) ;;
  modify (set_memory (js_or existingData (createDefaultStorageData now)))
  end

with repairCorruptedData (fuel : nat) : M bool :=
  match fuel with
  | O => throw StackOverflow
  | S f =>
  try_catch
    (rawData <- getItem ;;
     let corruptedData := match rawData with SlotText v => v | _ => JNull end in
     saveStorageData f (repairStorageData now corruptedData) false 0 ;;
     ret true)
    (fun _ => fallbackToMemoryStorage f ;; ret true)
  end

with attemptStorageReset (fuel : nat) : M bool :=
  match fuel with
  | O => throw StackOverflow
  | S f =>
  try_catch
    (avail <- gets isStorageAvailable ;;
     if avail then
       removeItem ;;
       saveStorageData f (createDefaultStorageData now) false 0 ;;
       ret true
     else ret false)
    (fun _ => fallbackToMemoryStorage f ;; ret true)
  end

with getStorageDataSafe (fuel : nat) : M jsval :=
  match fuel with
  | O => throw StackOverflow
  | S f => try_catch (getStorageData f 0) (fun _ => ret (createDefaultStorageData now))
  end

with cleanupOldData (fuel : nat) : M unit :=
  match fuel with
  | O => throw StackOverflow
  | S f =>
  try_catch
    (data <- getStorageData f 0 ;;
     let cutoffTime := (now - THIRTY_DAYS)%Z in
     worlds <- lift (getp data "worlds") ;;
     ws <- lift (match worlds with
                 | JUndef | JNull => Throw (TypeError "Cannot convert undefined or null to object")
                 | _ => Ok (entries worlds)
                 end) ;;
     let cleanedWorlds :=
       filter (fun '(_, worldData) =>
                 match get worldData "lastUpdated" with
                 | JNum t => Z.ltb cutoffTime t
                 | _ => false
                 end) ws in
     data' <- lift (put data "worlds" (JObj cleanedWorlds)) ;;
     saveStorageData f data' false 0)
    (fun _ => ret tt)
  end.

(** [data[k1][k2] = x] *)
Definition put_in (data : jsval) (k1 k2 : string) (x : jsval) : result jsval :=
  match getp data k1 with
  | Throw e => Throw e
  | Ok inner =>
      match put inner k2 x with
      | Throw e => Throw e
      | Ok inner' => put data k1 inner'
      end
  end.

(** [{...progress, worldId}]: own enumerable properties of [progress], then
    [worldId] (the index properties of a string spread are not read by
    [sanitizeWorldProgress] and are left out). *)
Definition spread_with_worldId (progress : jsval) (worldId : string) : jsval :=
  JObj (obj_set (entries progress) "worldId" (JStr worldId)).

Definition _saveWorldProgressImmediate (fuel : nat) (worldId : string)
           (progress : WorldProgress) : M unit :=
  (* attemptSave(), first attempt: a failure schedules the next one *)
  try_catch
    (storageData <- lift (transformToStorageFormat (wp_to_js progress)) ;;
     data <- getStorageData fuel 0 ;;
     data1 <- lift (put_in data "worlds" worldId storageData) ;;
     data2 <- lift (put_in data1 "metadata" "lastAccessed" (JNum now)) ;;
     saveStorageData fuel data2 false 0)
    (fun _ => setTimeout (TRetryImmediateSave worldId progress 1) ;; ret tt).

(** In the messages below that interpolate the caller's raw [worldId],
    which may be any value, the id is left out. *)
Definition saveWorldProgress (fuel : nat) (worldId progress : jsval) (immediate : bool)
  : M unit :=
  try_catch
    (sanitizedWorldId <- lift (validateWorldId worldId) ;;
     sanitizedProgress <-
       match sanitizeWorldProgress now (spread_with_worldId progress sanitizedWorldId) with
       | Ok p => ret p
       | Throw _ =>
           notifyErrorListeners (ProgressError VALIDATION_ERROR
             ("Failed to sanitize progress data for world " ++ sanitizedWorldId)%string) ;;
           ret (mkWP (JStr sanitizedWorldId) [] (new_Set ["puzzle_1"]) now
                     CURRENT_SCHEMA_VERSION)
       end ;;
     if immediate then
       _saveWorldProgressImmediate fuel sanitizedWorldId sanitizedProgress
     else
       pending <- gets (fun s => assoc_nat sanitizedWorldId (saveTimeouts s)) ;;
       (match pending with Some id => clearTimeout id | None => ret tt end) ;;
       timeoutId <- setTimeout (TDebouncedSave sanitizedWorldId sanitizedProgress) ;;
       ms <- gets saveTimeouts ;;
       modify (set_saveTimeouts (map_set ms sanitizedWorldId timeoutId)) ;;
       notifyProgressChange (JStr sanitizedWorldId) sanitizedProgress)
    (fun error =>
       let progressError :=
         match etype error with
         | Some _ => error
         | None => ProgressError VALIDATION_ERROR
                     ("Failed to save progress for world: " ++ emsg error)%string
         end in
       notifyErrorListeners progressError ;;
       throw progressError).

Definition resetWorldProgress (fuel : nat) (worldId : jsval) : M unit :=
  try_catch
    (sanitizedWorldId <- lift (validateWorldId worldId) ;;
     data <- getStorageData fuel 0 ;;
     let resetData := storage_record [] ["puzzle_1"] now in
     data1 <- lift (put_in data "worlds" sanitizedWorldId resetData) ;;
     data2 <- lift (put_in data1 "metadata" "lastAccessed" (JNum now)) ;;
     saveStorageData fuel data2 false 0 ;;
     notifyProgressChange (JStr sanitizedWorldId)
       (mkWP (JStr sanitizedWorldId) [] (new_Set ["puzzle_1"]) now CURRENT_SCHEMA_VERSION))
    (fun error =>
       let progressError :=
         match etype error with
         | Some _ => error
         | None => ProgressError UNKNOWN_ERROR
                     ("Failed to reset progress: " ++ emsg error)%string
         end in
       notifyErrorListeners progressError ;;
       (match createDefaultWorldProgress now worldId with
        | Ok defaultProgress => notifyProgressChange worldId defaultProgress
        | Throw _ => ret tt
        end) ;;
       throw progressError).

Definition getWorldProgress (fuel : nat) (worldId : jsval) : M WorldProgress :=
  try_catch
    (sanitizedWorldId <- lift (validateWorldId worldId) ;;
     data <- getStorageData fuel 0 ;;
     worlds <- lift (getp data "worlds") ;;
     worldData <- lift (getp worlds sanitizedWorldId) ;;
     if negb (truthy worldData) then
       lift (createDefaultWorldProgress now (JStr sanitizedWorldId))
     else if negb (validateStorageWorldData worldData) then
       let error := ProgressError VALIDATION_ERROR
                      ("Invalid world data for " ++ sanitizedWorldId)%string in
       let repairedWorldData := migrateWorldData now worldData in
       data' <- lift (put_in data "worlds" sanitizedWorldId repairedWorldData) ;;
       saveStorageData fuel data' false 0 ;;
       notifyErrorListeners error ;;
       lift (transformFromStorageFormat (JStr sanitizedWorldId) repairedWorldData)
     else lift (transformFromStorageFormat (JStr sanitizedWorldId) worldData))
    (fun error =>
       let progressError :=
         match etype error with
         | Some _ => error
         | None => ProgressError VALIDATION_ERROR
                     ("Failed to get progress for world: " ++ emsg error)%string
         end in
       notifyErrorListeners progressError ;;
       match createDefaultWorldProgress now worldId with
       | Ok p => ret p
       | Throw _ =>
           (* last resort *)
           ret (mkWP (js_or worldId (JStr "unknown")) [] (new_Set ["puzzle_1"]) now
                     CURRENT_SCHEMA_VERSION)
       end).

End Service.

(* ================================================================== *)
(** ** Cross-tab synchronisation, initialisation and timers *)

(** The key of the persisted document in [localStorage]. *)
Definition STORAGE_KEY : string := "enigma_vault_progress".

(** [xs.forEach(f)] and [for (const x of xs) f(x)]: an exception thrown by
    [f] leaves the loop. *)
Fixpoint forEach {A} (xs : list A) (f : A -> M unit) : M unit :=
  match xs with
  | [] => ret tt
  | x :: r => f x ;; forEach r f
  end.

(** [Object.keys(v)]: it throws on [null] and [undefined] (the index keys
    of a string are not modelled). *)
Definition object_keys (v : jsval) : result (list string) :=
  match v with
  | JUndef | JNull => Throw (TypeError "Cannot convert undefined or null to object")
  | _ => Ok (map fst (entries v))
  end.

(** [map.delete(k)] on a [Map] from world ids to timeout ids. *)
Definition map_delete (m : list (string * nat)) (k : string) : list (string * nat) :=
  filter (fun '(k', _) => negb (String.eqb k k')) m.

(** [event.newValue ? JSON.parse(event.newValue) : null] and the same for
    [event.oldValue]: a missing value gives [null], text that does not
    parse makes [JSON.parse] throw. *)
Definition parse_event_value (v : Slot) : result jsval :=
  match v with
  | SlotEmpty => Ok JNull
  | SlotText d => Ok d
  | SlotGarbage => Throw (mkErr "SyntaxError" "Unexpected token in JSON" 0 None)
  end.

(** The test of one world in the first loop of [findChangedWorlds].
    [a !== b] on values read from two separate [JSON.parse] results is
    [same_value_zero] negated (arrays and objects are distinct references;
    there is no [NaN]), and [JSON.stringify(a) !== JSON.stringify(b)] is
    structural inequality of the parsed values. *)
Definition world_changed (worldData oldWorldData : jsval) : result bool :=
  if negb (truthy oldWorldData) then Ok true
  else
    match getp worldData "lastUpdated" with
    | Throw e => Throw e
    | Ok lastUpdated =>
        Ok (negb (same_value_zero lastUpdated (get oldWorldData "lastUpdated"))
            || negb (jsval_eqb (get worldData "solvedPuzzles")
                               (get oldWorldData "solvedPuzzles"))
            || negb (jsval_eqb (get worldData "unlockedPuzzles")
                               (get oldWorldData "unlockedPuzzles")))
    end.

(** The loop over [Object.entries(newData.worlds || {})]. *)
Fixpoint changed_worlds_loop (oldWorlds : jsval) (ws : list (string * jsval))
  : result (list string) :=
  match ws with
  | [] => Ok []
  | (worldId, worldData) :: r =>
      match world_changed worldData (get oldWorlds worldId) with
      | Throw e => Throw e
      | Ok changed =>
          match changed_worlds_loop oldWorlds r with
          | Throw e => Throw e
          | Ok l => Ok (if changed then worldId :: l else l)
          end
      end
  end.

(** The loop over [Object.keys(oldData.worlds || {})]. *)
Fixpoint deleted_worlds_loop (newWorlds : jsval) (ks : list string) : result (list string) :=
  match ks with
  | [] => Ok []
  | worldId :: r =>
      match getp newWorlds worldId with
      | Throw e => Throw e
      | Ok worldData =>
          match deleted_worlds_loop newWorlds r with
          | Throw e => Throw e
          | Ok l => Ok (if truthy worldData then l else worldId :: l)
          end
      end
  end.

Definition findChangedWorlds (oldData newData : jsval) : result (list string) :=
  if negb (truthy oldData) || negb (truthy (get oldData "worlds")) then
    match getp newData "worlds" with
    | Throw e => Throw e
    | Ok newWorlds => object_keys (js_or newWorlds (JObj []))
    end
  else
    match getp newData "worlds" with
    | Throw e => Throw e
    | Ok newWorlds =>
        match changed_worlds_loop (get oldData "worlds")
                                  (entries (js_or newWorlds (JObj []))) with
        | Throw e => Throw e
        | Ok modified =>
            match object_keys (js_or (get oldData "worlds") (JObj [])) with
            | Throw e => Throw e
            | Ok oldIds =>
                match deleted_worlds_loop newWorlds oldIds with
                | Throw e => Throw e
                | Ok removed => Ok (modified ++ removed)
                end
            end
        end
    end.

(** [flushPendingSaves()]: every pending debounced save is cancelled. *)
Definition flushPendingSaves : M unit :=
  ms <- gets saveTimeouts ;;
  forEach ms (fun '(_, timeoutId) => clearTimeout timeoutId) ;;
  modify (set_saveTimeouts []).

Section Operations.

Variable now : Z.
Variable getItem_error : option JsError.
Variable setItem_error : jsval -> option JsError.
Variable too_large : jsval -> bool.

(** [handleCrossTabStorageCleared()] *)
Definition handleCrossTabStorageCleared (fuel : nat) : M unit :=
  currentData <- getStorageData now getItem_error setItem_error too_large fuel 0 ;;
  worlds <- lift (getp currentData "worlds") ;;
  worldIds <- lift (object_keys worlds) ;;
  forEach worldIds (fun worldId =>
    defaultProgress <- lift (createDefaultWorldProgress now (JStr worldId)) ;;
    notifyProgressChange (JStr worldId) defaultProgress).

(** The [storage] event listener installed by [initializeCrossTabSync]:
    [key] is [event.key] ([None] for [null], as sent by
    [localStorage.clear()]), [newValue] and [oldValue] the texts of the
    event. *)
Definition storageEventListener (fuel : nat) (key : option string)
           (newValue oldValue : Slot) : M unit :=
  if negb (match key with Some k => String.eqb k STORAGE_KEY | None => false end)
  then ret tt
  else
  updating <- gets isUpdatingFromStorageEvent ;;
  if updating then ret tt
  else
  try_catch
    (newData <- lift (parse_event_value newValue) ;;
     oldData <- lift (parse_event_value oldValue) ;;
     if negb (truthy newData) then handleCrossTabStorageCleared fuel
     else
       changedWorlds <- lift (findChangedWorlds oldData newData) ;;
       forEach changedWorlds (fun worldId =>
         worldData <- lift (getp (get newData "worlds") worldId) ;;
         if truthy worldData then
           progress <- lift (transformFromStorageFormat (JStr worldId) worldData) ;;
           notifyProgressChange (JStr worldId) progress
         else ret tt))
    (fun _ => ret tt).

(** [attemptInitialization()] of [initializeStorage] at its attempt
    [retryCount].  A retry is scheduled with
    [setTimeout(attemptInitialization, 100 * retryCount)]; the model returns
    the attempt number of that scheduled retry ([None] when none is
    scheduled) instead of queueing it. *)
Definition attemptInitialization (fuel retryCount : nat) : M (option nat) :=
  try_catch
    (stored <- getItem getItem_error ;;
     match stored with
     | SlotEmpty =>
         saveStorageData now getItem_error setItem_error too_large fuel
           (createDefaultStorageData now) false 0 ;;
         ret None
     | SlotGarbage =>
         throw (ProgressError DATA_CORRUPTION "Storage data is not valid JSON")
     | SlotText data =>
         integrityIssues <- lift (checkIntegrity data) ;;
         match integrityIssues with
         | _ :: _ =>
             let error := ProgressError DATA_CORRUPTION
                            ("Data integrity issues: " ++
                             String.concat ", " (map issue_text integrityIssues))%string in
             let repairedData := repairStorageData now data in
             saveStorageData now getItem_error setItem_error too_large fuel repairedData false 0 ;;
             notifyErrorListeners error ;;
             ret None
         | [] =>
             migrated <- try_catch
               (let migratedData := migrateToCurrentVersion now data in
                if negb (jsval_eqb migratedData data) then
                  saveStorageData now getItem_error setItem_error too_large fuel
                    migratedData false 0 ;;
                  notifyErrorListeners (ProgressError MIGRATION_ERROR
                    "Progress data has been updated to the latest format") ;;
                  ret true
                else ret false)
               (fun _ => throw (ProgressError MIGRATION_ERROR "Failed to migrate progress data")) ;;
             if migrated then ret None
             else
               data' <- lift (put_in data "metadata" "lastAccessed" (JNum now)) ;;
               saveStorageData now getItem_error setItem_error too_large fuel data' false 0 ;;
               ret None
         end
     end)
    (fun error =>
       handled <- handleStorageError now getItem_error setItem_error too_large fuel
                    error "initialization" retryCount ;;
       avail <- gets isStorageAvailable ;;
       if handled && Nat.ltb retryCount maxRetries && avail then ret (Some (S retryCount))
       else if negb handled then
         fallbackToMemoryStorage now getItem_error setItem_error too_large fuel ;; ret None
       else ret None).

Definition initializeStorage (fuel : nat) : M (option nat) :=
  avail <- gets isStorageAvailable ;;
  if negb avail then
    modify (set_memory (createDefaultStorageData now)) ;;
    notifyErrorListeners (ProgressError STORAGE_UNAVAILABLE
      "localStorage not available, using in-memory storage") ;;
    ret None
  else attemptInitialization fuel 0.

(** [attemptSave()] of [_saveWorldProgressImmediate] at its attempt
    [retryCount]. *)
Definition attemptSave (fuel : nat) (worldId : string) (progress : WorldProgress)
           (retryCount : nat) : M unit :=
  try_catch
    (storageData <- lift (transformToStorageFormat (wp_to_js progress)) ;;
     data <- getStorageData now getItem_error setItem_error too_large fuel 0 ;;
     data1 <- lift (put_in data "worlds" worldId storageData) ;;
     data2 <- lift (put_in data1 "metadata" "lastAccessed" (JNum now)) ;;
     saveStorageData now getItem_error setItem_error too_large fuel data2 false 0)
    (fun error =>
       if Nat.ltb retryCount maxRetries then
         setTimeout (TRetryImmediateSave worldId progress (S retryCount)) ;; ret tt
       else
         let progressError :=
           match etype error with
           | Some _ => error
           | None => ProgressError UNKNOWN_ERROR
                       ("Failed to save progress immediately for world " ++ worldId)%string
           end in
         notifyErrorListeners progressError ;;
         throw progressError).

(** The callbacks of the timers. *)
Definition runTimer (fuel : nat) (t : Timer) : M unit :=
  match t with
  | TRetryGetStorageData n =>
      getStorageData now getItem_error setItem_error too_large fuel n ;; ret tt
  | TRetrySave data fromStorageEvent n =>
      saveStorageData now getItem_error setItem_error too_large fuel data fromStorageEvent n
  | TResetUpdatingFlag => modify (set_updating false)
  | TDebouncedSave worldId progress =>
      try_catch
        (_saveWorldProgressImmediate now getItem_error setItem_error too_large fuel
           worldId progress)
        (fun _ => notifyErrorListeners (ProgressError UNKNOWN_ERROR
                    ("Failed to save progress for world " ++ worldId)%string)) ;;
      (* finally *)
      ms <- gets saveTimeouts ;;
      modify (set_saveTimeouts (map_delete ms worldId))
  | TRetryImmediateSave worldId progress n => attemptSave fuel worldId progress n
  end.

(** The event loop running the timer with id [timerId]: a cleared or
    unknown id runs nothing. *)
Definition fireTimer (fuel timerId : nat) : M unit :=
  ts <- gets timers ;;
  match find (fun '(i, _) => Nat.eqb i timerId) ts with
  | Some (_, t) => clearTimeout timerId ;; runTimer fuel t
  | None => ret tt
  end.

(** In the messages below that interpolate the caller's raw ids, the ids
    are left out.  [getWorldProgress] always returns [Set]s, so the
    [instanceof Set] branches are the ones taken. *)
Definition isPuzzleSolved (fuel : nat) (worldId puzzleId : jsval) : M bool :=
  try_catch
    (sanitizedPuzzleId <- lift (validatePuzzleId puzzleId) ;;
     progress <- getWorldProgress now getItem_error setItem_error too_large fuel worldId ;;
     ret (existsb (String.eqb sanitizedPuzzleId) (wp_solvedPuzzles progress)))
    (fun _ =>
       notifyErrorListeners (ProgressError VALIDATION_ERROR
         "Failed to check if puzzle is solved") ;;
       ret false).

Definition isPuzzleUnlocked (fuel : nat) (worldId puzzleId : jsval) : M bool :=
  try_catch
    (sanitizedPuzzleId <- lift (validatePuzzleId puzzleId) ;;
     progress <- getWorldProgress now getItem_error setItem_error too_large fuel worldId ;;
     ret (existsb (String.eqb sanitizedPuzzleId) (wp_unlockedPuzzles progress)))
    (fun _ =>
       notifyErrorListeners (ProgressError VALIDATION_ERROR
         "Failed to check if puzzle is unlocked") ;;
       match validatePuzzleId puzzleId with
       | Ok sanitizedPuzzleId => ret (String.eqb sanitizedPuzzleId "puzzle_1")
       | Throw _ => ret false
       end).

Definition getUnlockedPuzzles (fuel : nat) (worldId : jsval) : M (list string) :=
  try_catch
    (progress <- getWorldProgress now getItem_error setItem_error too_large fuel worldId ;;
     ret (wp_unlockedPuzzles progress))
    (fun _ =>
       notifyErrorListeners (ProgressError VALIDATION_ERROR
         "Failed to get unlocked puzzles") ;;
       ret ["puzzle_1"]).

End Operations.

(* ================================================================== *)
(** ** Fixtures and auxiliary notions *)

(** The error a browser raises from [localStorage.setItem] when storage is
    denied (DOMException [SECURITY_ERR], code 18). *)
Definition SecurityErrorExc : JsError :=
  mkErr "SecurityError" "The operation is insecure." 18 None.

(** A service right after its constructor found the medium usable: nothing
    in memory, no timers, nothing sent to subscribers. *)
Definition freshService (sl : Slot) : Service :=
  mkService true JNull sl false [] [] 0 [] [] None 0.

(** A valid current-version document whose only world record has an empty
    [unlockedPuzzles]. *)
Definition doc_empty_unlocked : jsval :=
  JObj [("version", JStr "1.0.0");
        ("worlds", JObj [("w1", storage_record [] [] 0)]);
        ("metadata", JObj [("createdAt", JNum 0); ("lastAccessed", JNum 0)])].

(** A valid document written at an older schema version, with two worlds. *)
Definition doc_old_version : jsval :=
  JObj [("version", JStr "0.9.0");
        ("worlds", JObj [("a", storage_record ["puzzle_1"] ["puzzle_1"] 0);
                         ("b", storage_record ["puzzle_1"] ["puzzle_1"] 0)]);
        ("metadata", JObj [("createdAt", JNum 0); ("lastAccessed", JNum 0)])].

(** An identifier that sanitization leaves as it is. *)
Definition canonical_puzzle (v : jsval) : Prop :=
  exists s, v = JStr s /\ validatePuzzleId v = Ok s.

(** A computation that sends nothing to the progress subscribers. *)
Definition keeps_events {A} (m : M A) : Prop :=
  forall s, progressEvents (snd (m s)) = progressEvents s.

(* ================================================================== *)
(** An entry that [validatePuzzleId] rejects although the array filter keeps it. *)
Definition unusable_entry (x : jsval) : Prop :=
  exists s, x = JStr s /\ trim s <> "" /\ strip (trim s) = "".


(** The state after a successful write of a valid document. *)
Definition written (d : jsval) (s : Service) : Service :=
  set_timers (timers s ++ [(nextTimerId s, TResetUpdatingFlag)]) (S (nextTimerId s))
    (set_slot (SlotText d) (set_updating true s)).

(** A computation that leaves the pending debounced saves alone. *)
Definition keeps_timeouts {A} (m : M A) : Prop :=
  forall s, saveTimeouts (snd (m s)) = saveTimeouts s.

(** The document [cleanupOldData] writes: worlds updated within the last thirty days. *)
Definition cleaned_document (now : Z) (fs ws : list (string * jsval)) : jsval :=
  JObj (obj_set fs "worlds"
    (JObj (filter (fun '(_, worldData) =>
                     match get worldData "lastUpdated" with
                     | JNum t => Z.ltb (now - THIRTY_DAYS) t
                     | _ => false
                     end) ws))).

(** The worldId is a string and the puzzle ids are in canonical form. *)
Definition progress_canonical (p : WorldProgress) : Prop :=
  (exists x, wp_worldId p = JStr x) /\
  Forall canonical_puzzle (map JStr (wp_solvedPuzzles p)) /\
  Forall canonical_puzzle (map JStr (wp_unlockedPuzzles p)).

(** The fields of a current-version document holding the worlds [ws]. *)
Definition current_fields (ws : list (string * jsval)) : list (string * jsval) :=
  [("version", JStr "1.0.0"); ("worlds", JObj ws);
   ("metadata", JObj [("createdAt", JNum 0); ("lastAccessed", JNum 0)])].

(** Two valid world records, last updated at times 0 and 20. *)
Definition two_worlds : list (string * jsval) :=
  [("w1", storage_record ["puzzle_1"] ["puzzle_1"; "puzzle_2"] 0);
   ("w2", storage_record [] ["puzzle_1"] 20)].

(** A world record whose solved list holds ["!!"], which sanitizes to nothing. *)
Definition unusable_worlds : list (string * jsval) :=
  [("w1", storage_record ["!!"] ["puzzle_1"] 0)].

(** A service with one debounced save of world [w1] pending as timer 0. *)
Definition pendingService (p : WorldProgress) : Service :=
  mkService true JNull (SlotText (JObj (current_fields two_worlds))) false
            [("w1", 0)] [(0, TDebouncedSave "w1" p)] 1 [] [] None 0.

(** A storage quota error (DOMException [QUOTA_EXCEEDED_ERR], code 22). *)
Definition QuotaErrorExc : JsError := mkErr "QuotaExceededError" "" 22 None.

(** ** Facts about the schema layer *)

Lemma set_add_all_In : forall xs acc x,
  In x (set_add_all acc xs) <-> In x acc \/ In x xs.
Proof.
  induction xs as [|y xs IH]; intros acc x; simpl.
  - tauto.
  - rewrite IH. destruct (existsb (String.eqb y) acc) eqn:E.
    + apply existsb_exists in E as [z [Hz Hyz]].
      apply String.eqb_eq in Hyz; subst z.
      split; [tauto|]. intros [H|[H|H]]; auto. subst; auto.
    + rewrite in_app_iff; simpl. tauto.
Qed.

Lemma new_Set_In : forall xs x, In x (new_Set xs) <-> In x xs.
Proof. intros; unfold new_Set; rewrite set_add_all_In; simpl; tauto. Qed.

Lemma canonical_keep : forall v, canonical_puzzle v -> keep_id v = true.
Proof.
  intros v [s [-> H]]; simpl in *.
  destruct (String.eqb (trim s) "") eqn:E; [discriminate | reflexivity].
Qed.

Lemma canonical_list : forall xs, Forall canonical_puzzle xs ->
  exists ss, xs = map JStr ss /\ validatePuzzleIdArray (JArr xs) = Ok ss.
Proof.
  intros xs H; unfold validatePuzzleIdArray.
  rewrite forallb_filter_id by
    (apply forallb_forall; intros v Hv; apply canonical_keep;
     eapply Forall_forall; eauto).
  induction H as [|v xs Hv Hxs IH].
  - exists []; auto.
  - destruct IH as [ss [-> Hss]]. destruct Hv as [s [-> Hs]].
    exists (s :: ss); cbn [map_validatePuzzleId map]; rewrite Hs, Hss; auto.
Qed.

Lemma In_map_JStr : forall ss s, In (JStr s) (map JStr ss) <-> In s ss.
Proof.
  intros ss s; rewrite in_map_iff; split.
  - intros [x [Hx Hin]]; injection Hx as ->; exact Hin.
  - intros Hin; exists s; auto.
Qed.

Lemma storage_record_valid : forall s u t,
  validateStorageWorldData (storage_record s u t) = true.
Proof. reflexivity. Qed.

Lemma storage_record_solved : forall s u t,
  get (storage_record s u t) "solvedPuzzles" = JArr (map JStr s).
Proof. reflexivity. Qed.

Lemma storage_record_unlocked : forall s u t,
  get (storage_record s u t) "unlockedPuzzles" = JArr (map JStr u).
Proof. reflexivity. Qed.

Lemma storage_record_lastUpdated : forall s u t,
  get (storage_record s u t) "lastUpdated" = JNum t.
Proof. reflexivity. Qed.

(** The entries of the world loop of [checkIntegrity]. *)

Lemma check_world_valid : forall k v, validateStorageWorldData v = true ->
  exists is, check_world k v = Ok is.
Proof.
  intros k v H; unfold validateStorageWorldData in H.
  apply andb_prop in H as [H H3]; apply andb_prop in H as [H H2];
  apply andb_prop in H as [_ H1].
  unfold check_world.
  destruct (get v "solvedPuzzles"); try discriminate;
  destruct (get v "unlockedPuzzles"); try discriminate; eauto.
Qed.

Lemma check_worlds_valid : forall ws,
  forallb (fun '(_, wd) => validateStorageWorldData wd) ws = true ->
  exists is, check_worlds ws = Ok is.
Proof.
  induction ws as [|[k v] ws IH]; simpl; intros H; eauto.
  apply andb_prop in H as [H1 H2].
  destruct (check_world_valid k v H1) as [is1 ->].
  destruct (IH H2) as [is2 ->]; eauto.
Qed.

Lemma check_worlds_In : forall ws is, check_worlds ws = Ok is ->
  forall i, In i is <-> exists k v is1, In (k, v) ws /\ check_world k v = Ok is1 /\ In i is1.
Proof.
  induction ws as [|[k v] ws IH]; simpl; intros is H i.
  - injection H as <-; split; [intros []|intros (k & v & is1 & [] & _)].
  - destruct (check_world k v) as [is1|] eqn:E1; [|discriminate].
    destruct (check_worlds ws) as [is2|] eqn:E2; [|discriminate].
    injection H as <-. rewrite in_app_iff, (IH is2 eq_refl). split.
    + intros [Hi|(k' & v' & is' & Hin & Hc & Hi)].
      * exists k, v, is1; auto.
      * exists k', v', is'; auto.
    + intros (k' & v' & is' & [Heq|Hin] & Hc & Hi).
      * injection Heq as -> ->. rewrite E1 in Hc; injection Hc as ->; auto.
      * right; exists k', v', is'; auto.
Qed.

Lemma check_world_names : forall k v is p w,
  check_world k v = Ok is -> In (SolvedNotUnlocked p w) is -> w = k.
Proof.
  intros k v is p w H Hin; unfold check_world in H.
  destruct (get v "solvedPuzzles"); try discriminate;
  destruct (get v "unlockedPuzzles"); try discriminate.
  injection H as <-.
  repeat rewrite in_app_iff in Hin.
  destruct Hin as [Hin|[Hin|[Hin|[Hin|Hin]]]];
    [ .. | apply in_flat_map in Hin as [x [_ Hx]];
           destruct (js_includes _ x); simpl in Hx;
           [contradiction | destruct Hx as [Hx|[]]; injection Hx as _ ->; reflexivity] ];
    repeat match type of Hin with
           | context [match ?c with Ok _ => _ | Throw _ => _ end] => destruct c
           | context [if ?c then _ else _] => destruct c
           end;
    simpl in Hin; intuition discriminate.
Qed.

Lemma validateStorageData_records : forall data, validateStorageData data = true ->
  forallb (fun '(_, wd) => validateStorageWorldData wd) (entries (get data "worlds")) = true.
Proof. intros data H; unfold validateStorageData in H; apply andb_prop in H as [_ H]; exact H. Qed.

Lemma validateStorageData_version : forall data, validateStorageData data = true ->
  exists v, get data "version" = JStr v.
Proof.
  intros data H; unfold validateStorageData in H.
  repeat (apply andb_prop in H as [H ?]).
  match goal with Hv : is_str (get data "version") = true |- _ =>
    destruct (get data "version"); try discriminate Hv; eauto end.
Qed.

Lemma NoDup_fst_unique : forall (l : list (string * jsval)) k v v',
  NoDup (map fst l) -> In (k, v) l -> In (k, v') l -> v = v'.
Proof.
  induction l as [|[k0 v0] l IH]; simpl; intros k v v' Hnd H1 H2; [contradiction|].
  inversion Hnd as [|? ? Hnin Hnd']; subst.
  destruct H1 as [H1|H1], H2 as [H2|H2].
  - congruence.
  - injection H1 as Hk _; subst. exfalso; apply Hnin; apply (in_map fst) in H2; exact H2.
  - injection H2 as Hk _; subst. exfalso; apply Hnin; apply (in_map fst) in H1; exact H1.
  - eauto.
Qed.

(** The issues of the version check and of the id and shape checks of
    one world are never [SolvedNotUnlocked]. *)
Ltac no_solved_issue H :=
  repeat rewrite in_app_iff in H;
  repeat match type of H with
         | context [match ?c with Ok _ => _ | Throw _ => _ end] => destruct c
         | context [if ?c then _ else _] => destruct c
         end;
  simpl in H; intuition discriminate.

(* ================================================================== *)
(** ** Facts about the service *)

Lemma jsval_eqb_refl : forall v, jsval_eqb v v = true.
Proof.
  fix IH 1. intros [| | b | n | s | xs | xs | fs |]; simpl; try reflexivity.
  - destruct b; reflexivity.
  - apply Z.eqb_refl.
  - apply String.eqb_refl.
  - revert xs; fix IHl 1; intros [|x xs]; simpl; [reflexivity|]. rewrite IH, IHl; reflexivity.
  - revert xs; fix IHl 1; intros [|x xs]; simpl; [reflexivity|]. rewrite IH, IHl; reflexivity.
  - revert fs; fix IHf 1; intros [|[k x] fs]; simpl; [reflexivity|].
    rewrite String.eqb_refl, IH, IHf; reflexivity.
Qed.

Lemma migrate_current : forall now fs,
  get (JObj fs) "version" = JStr "1.0.0" -> migrateToCurrentVersion now (JObj fs) = JObj fs.
Proof. intros now fs H; unfold migrateToCurrentVersion; simpl is_obj; cbv iota beta zeta; rewrite H; reflexivity. Qed.

Lemma getStorageData_current : forall now se tl f r s fs,
  isStorageAvailable s = true -> slot s = SlotText (JObj fs) ->
  validateStorageData (JObj fs) = true -> get (JObj fs) "version" = JStr "1.0.0" ->
  getStorageData now None se tl (S f) r s = (Ok (JObj fs), s).
Proof.
  intros now se tl f r s fs Ha Hs Hv Hver.
  cbn [getStorageData].
  unfold bind, gets, try_catch, getItem. rewrite Ha. cbn -[validateStorageData migrateToCurrentVersion jsval_eqb].
  rewrite Hs, Hv, (migrate_current now fs Hver), jsval_eqb_refl. reflexivity.
Qed.

Lemma assoc_obj_set : forall fs k k' v,
  assoc k (obj_set fs k' v) = if String.eqb k k' then v else assoc k fs.
Proof.
  induction fs as [|[k0 v0] fs IH]; intros k k' v; simpl.
  - destruct (String.eqb k k'); reflexivity.
  - destruct (String.eqb_spec k' k0) as [->|Hne]; simpl.
    + destruct (String.eqb k k0); reflexivity.
    + rewrite IH. destruct (String.eqb_spec k k0) as [->|]; [|reflexivity].
      destruct (String.eqb_spec k0 k') as [->|]; [contradiction|reflexivity].
Qed.

Lemma forallb_obj_set : forall (P : string * jsval -> bool) fs k v,
  (forall k' k'' v', String.eqb k' k'' = true -> P (k', v') = P (k'', v')) ->
  forallb P fs = true -> P (k, v) = true -> forallb P (obj_set fs k v) = true.
Proof.
  intros P fs k v HP; induction fs as [|[k0 v0] fs IH]; simpl; intros H Hk.
  - rewrite Hk; reflexivity.
  - apply andb_prop in H as [H0 H1].
    destruct (String.eqb k k0) eqn:E; simpl.
    + rewrite H1, andb_true_r. rewrite <- (HP k k0 v E). exact Hk.
    + rewrite H0; simpl; auto.
Qed.

Lemma valid_update : forall now fs ws ms w,
  validateStorageData (JObj fs) = true ->
  get (JObj fs) "worlds" = JObj ws -> get (JObj fs) "metadata" = JObj ms ->
  validateStorageData
    (JObj (obj_set (obj_set fs "worlds" (JObj (obj_set ws w (storage_record [] ["puzzle_1"] now))))
                   "metadata" (JObj (obj_set ms "lastAccessed" (JNum now))))) = true.
Proof.
  intros now fs ws ms w Hv Hw Hm.
  unfold validateStorageData in *. cbn [get entries] in *.
  rewrite !assoc_obj_set. simpl String.eqb. cbv iota. rewrite Hw, Hm in *.
  cbn [get entries is_obj truthy typeof_object is_num] in *.
  rewrite !assoc_obj_set. simpl String.eqb. cbv iota.
  repeat (apply andb_prop in Hv as [Hv ?]).
  repeat (apply andb_true_intro; split); auto.
  apply forallb_obj_set; auto.
Qed.

(** Runs the monad's plumbing. *)
Ltac run :=
  unfold bind, gets, modify, ret, throw, try_catch, lift, setTimeout, notifyErrorListeners,
         notifyProgressChange, setItem, getItem, removeItem, clearTimeout; simpl.

Lemma saveStorageData_written : forall now ge se tl f d r s,
  validateStorageData d = true -> isStorageAvailable s = true ->
  se d = None -> tl d = false ->
  exists s', saveStorageData now ge se tl (S f) d false r s = (Ok tt, s') /\
    slot s' = SlotText d /\ progressEvents s' = progressEvents s.
Proof.
  intros now ge se tl f d r s Hv Ha Hse Htl.
  simpl. rewrite Hv. run. rewrite Ha, Htl, Hse. simpl.
  simpl. eexists; split; [reflexivity|]. split; reflexivity.
Qed.

Section CurrentDocument.
Variables (now : Z) (se : jsval -> option JsError) (tl : jsval -> bool) (fs : list (string * jsval)).
Hypothesis Hvalid : validateStorageData (JObj fs) = true.
Hypothesis Hcurrent : get (JObj fs) "version" = JStr "1.0.0".

Lemma getStorageDataSafe_current : forall f s,
  isStorageAvailable s = true -> slot s = SlotText (JObj fs) ->
  getStorageDataSafe now None se tl (S (S f)) s = (Ok (JObj fs), s).
Proof.
  intros f s Ha Hs. remember (S f) as g eqn:Hg. simpl. unfold try_catch. subst g.
  rewrite (getStorageData_current now se tl f 0 s fs); auto.
Qed.

Lemma fallbackToMemoryStorage_current : forall f s,
  isStorageAvailable s = true -> slot s = SlotText (JObj fs) ->
  exists s', fallbackToMemoryStorage now None se tl (S (S (S f))) s = (Ok tt, s') /\
    isStorageAvailable s' = false /\ slot s' = slot s /\ progressEvents s' = progressEvents s.
Proof.
  intros f s Ha Hs. remember (S (S f)) as g eqn:Hg. simpl. run.
  destruct (truthy (inMemoryStorage s)); simpl.
  - eexists; split; [reflexivity|]; auto.
  - subst g. rewrite getStorageDataSafe_current by auto. simpl.
    eexists; split; [reflexivity|]; auto.
Qed.

Lemma handleStorageError_security : forall f op r s,
  isStorageAvailable s = true -> slot s = SlotText (JObj fs) ->
  exists s', handleStorageError now None se tl (S (S (S (S f)))) SecurityErrorExc op r s
             = (Ok true, s') /\
    isStorageAvailable s' = false /\ slot s' = slot s /\ progressEvents s' = progressEvents s.
Proof.
  intros f op r s Ha Hs. remember (S (S (S f))) as g eqn:Hg. simpl. run. subst g.
  destruct (fallbackToMemoryStorage_current f (count_error s)) as (s1 & E & H1 & H2 & H3);
    auto.
  rewrite E. simpl. eexists; split; [reflexivity|]. simpl; auto.
Qed.

Lemma saveStorageData_security : forall f d s,
  validateStorageData d = true -> isStorageAvailable s = true -> slot s = SlotText (JObj fs) ->
  se d = Some SecurityErrorExc -> tl d = false ->
  exists s', saveStorageData now None se tl (S (S (S (S (S f))))) d false 0 s = (Ok tt, s') /\
    isStorageAvailable s' = false /\ inMemoryStorage s' = d /\ slot s' = slot s /\
    progressEvents s' = progressEvents s.
Proof.
  intros f d s Hv Ha Hs Hse Htl. remember (S (S (S (S f)))) as g eqn:Hg.
  simpl. rewrite Hv. run. rewrite Ha, Htl, Hse. simpl. subst g.
  match goal with |- context [handleStorageError _ _ _ _ _ _ _ _ ?s1] =>
    destruct (handleStorageError_security f "saveStorageData" 0 s1) as (s2 & E & H1 & H2 & H3) end;
    auto.
  rewrite E. simpl. rewrite H1. simpl. eexists; split; [reflexivity|]. simpl; auto.
Qed.

End CurrentDocument.

Lemma keeps_ret {A} (a : A) : keeps_events (ret a).
Proof. intros s; reflexivity. Qed.
Lemma keeps_throw {A} (e : JsError) : keeps_events (@throw A e).
Proof. intros s; reflexivity. Qed.
Lemma keeps_gets {A} (f : Service -> A) : keeps_events (gets f).
Proof. intros s; reflexivity. Qed.
Lemma keeps_lift {A} (r : result A) : keeps_events (lift r).
Proof. intros s; reflexivity. Qed.
Lemma keeps_modify (f : Service -> Service) :
  (forall s, progressEvents (f s) = progressEvents s) -> keeps_events (modify f).
Proof. intros H s; apply H. Qed.
Lemma keeps_bind {A B} (m : M A) (k : A -> M B) :
  keeps_events m -> (forall a, keeps_events (k a)) -> keeps_events (bind m k).
Proof.
  intros Hm Hk s; unfold bind; specialize (Hm s).
  destruct (m s) as [[a|e] s']; simpl in *; [rewrite Hk|]; auto.
Qed.
Lemma keeps_try {A} (m : M A) (h : JsError -> M A) :
  keeps_events m -> (forall e, keeps_events (h e)) -> keeps_events (try_catch m h).
Proof.
  intros Hm Hh s; unfold try_catch; specialize (Hm s).
  destruct (m s) as [[a|e] s']; simpl in *; [|rewrite Hh]; auto.
Qed.
Lemma keeps_setTimeout t : keeps_events (setTimeout t).
Proof. intros s; reflexivity. Qed.
Lemma keeps_clearTimeout id : keeps_events (clearTimeout id).
Proof. intros s; reflexivity. Qed.
Lemma keeps_notifyErrorListeners e : keeps_events (notifyErrorListeners e).
Proof. intros s; reflexivity. Qed.
Lemma keeps_getItem ge : keeps_events (getItem ge).
Proof. intros s; unfold getItem; destruct ge; reflexivity. Qed.
Lemma keeps_setItem se d : keeps_events (setItem se d).
Proof. intros s; unfold setItem; destruct (se d); reflexivity. Qed.
Lemma keeps_removeItem : keeps_events removeItem.
Proof. intros s; reflexivity. Qed.

Create HintDb keeps.
#[local] Hint Resolve keeps_ret keeps_throw keeps_gets keeps_lift keeps_setTimeout
  keeps_clearTimeout keeps_notifyErrorListeners keeps_getItem keeps_setItem
  keeps_removeItem : keeps.

Ltac keeps :=
  repeat match goal with
  | |- keeps_events (bind _ _) => apply keeps_bind; [|intros ?]
  | |- keeps_events (try_catch _ _) => apply keeps_try; [|intros ?]
  | |- keeps_events (modify _) => apply keeps_modify; intros ?; reflexivity
  | |- keeps_events (if ?b then _ else _) =>
      lazymatch b with true => fail | false => fail | _ => destruct b end
  | |- keeps_events (match ?x with _ => _ end) => destruct x
  | |- keeps_events _ => progress cbv beta zeta
  | |- keeps_events _ => solve [auto with keeps]
  end.

Lemma storage_keeps_events : forall now ge se tl fuel,
  (forall r, keeps_events (getStorageData now ge se tl fuel r)) /\
  (forall d b r, keeps_events (saveStorageData now ge se tl fuel d b r)) /\
  (forall e op r, keeps_events (handleStorageError now ge se tl fuel e op r)) /\
  keeps_events (fallbackToMemoryStorage now ge se tl fuel) /\
  keeps_events (repairCorruptedData now ge se tl fuel) /\
  keeps_events (attemptStorageReset now ge se tl fuel) /\
  keeps_events (getStorageDataSafe now ge se tl fuel) /\
  keeps_events (cleanupOldData now ge se tl fuel).
Proof.
  intros now ge se tl fuel; induction fuel as [|f IH].
  - repeat split; intros; apply keeps_throw.
  - destruct IH as (H1 & H2 & H3 & H4 & H5 & H6 & H7 & H8).
    repeat split; intros; cbn [getStorageData saveStorageData handleStorageError
      fallbackToMemoryStorage repairCorruptedData attemptStorageReset getStorageDataSafe
      cleanupOldData]; keeps.
Qed.

(* ================================================================== *)
(** ** Facts about identifiers, repair, cross-tab sync, reads, writes and timers *)

Lemma id_char_not_ws : forall c, id_char c = true -> is_ws c = false.
Proof.
  intros [[] [] [] [] [] [] [] []]; vm_compute; congruence.
Qed.

Lemma drop_ws_id : forall l, forallb id_char l = true -> drop_ws l = l.
Proof.
  intros [|c l] H; simpl in *; [reflexivity|].
  apply andb_prop in H as [H _]. rewrite (id_char_not_ws c H). reflexivity.
Qed.

Lemma trim_id : forall s, forallb id_char (list_ascii_of_string s) = true -> trim s = s.
Proof.
  intros s H. unfold trim. rewrite (drop_ws_id _ H).
  rewrite drop_ws_id.
  - rewrite rev_involutive, string_of_list_ascii_of_string. reflexivity.
  - rewrite forallb_forall in *. intros x Hx. apply H, in_rev, Hx.
Qed.

Lemma strip_chars : forall s, forallb id_char (list_ascii_of_string (strip s)) = true.
Proof.
  intros s; unfold strip. rewrite list_ascii_of_string_of_list_ascii.
  apply forallb_forall; intros x Hx. apply filter_In in Hx; tauto.
Qed.

Lemma strip_id : forall s, forallb id_char (list_ascii_of_string s) = true -> strip s = s.
Proof.
  intros s H; unfold strip. rewrite forallb_filter_id by exact H.
  apply string_of_list_ascii_of_string.
Qed.

Lemma validateWorldId_fixed : forall v w,
  validateWorldId v = Ok w -> validateWorldId (JStr w) = Ok w.
Proof.
  intros [| | | |s| | | |] w H; simpl in H; try discriminate.
  destruct (String.eqb (trim s) "") eqn:E1; [discriminate|].
  destruct (String.eqb (strip (trim s)) "") eqn:E2; [discriminate|].
  injection H as <-. simpl.
  pose proof (strip_chars (trim s)) as Hc.
  rewrite (trim_id _ Hc), E2, (strip_id _ Hc), E2. reflexivity.
Qed.

Lemma migrateWorldData_valid_h : forall now wd,
  validateStorageWorldData (migrateWorldData now wd) = true.
Proof.
  intros now wd; unfold migrateWorldData.
  destruct (validateStorageWorldData wd); simpl; [|reflexivity].
  destruct (validatePuzzleIdArray (get wd "solvedPuzzles")), (validatePuzzleIdArray (get wd "unlockedPuzzles")), (get wd "lastUpdated"); reflexivity.
Qed.

Lemma repair_worlds_valid : forall now ws acc,
  forallb (fun '(_, wd) => validateStorageWorldData wd) acc = true ->
  forallb (fun '(_, wd) => validateStorageWorldData wd) (repair_worlds now acc ws) = true.
Proof.
  intros now; induction ws as [|[k v] ws IH]; intros acc H; cbn [repair_worlds]; [exact H|].
  destruct (validateWorldId (JStr k)); apply IH; auto.
  apply forallb_obj_set; auto. apply migrateWorldData_valid_h.
Qed.

Lemma repairStorageData_valid_iff : forall now data,
  validateStorageData (repairStorageData now data) = false <->
  is_obj data = true /\ get data "version" = JStr "".
Proof.
  intros now data; unfold repairStorageData.
  destruct (is_obj data) eqn:Ho; simpl negb; cbv iota.
  2:{ split; [intros H; discriminate H | intros [H _]; discriminate H]. }
  set (W := if truthy (get data "worlds") && typeof_object (get data "worlds")
            then repair_worlds now [] (entries (get data "worlds")) else []).
  assert (HW : forallb (fun '(_, wd) => validateStorageWorldData wd) W = true).
  { unfold W; destruct (_ && _); [apply repair_worlds_valid; reflexivity|reflexivity]. }
  unfold validateStorageData; cbn [get entries assoc String.eqb is_obj truthy typeof_object].
  simpl.
  destruct (get (get data "metadata") "createdAt"); simpl; rewrite HW;
  destruct (get data "version") eqn:Hv; simpl; rewrite ?andb_true_r;
  try (split; [intros H; discriminate H | intros [_ H]; discriminate H]).
  all: match goal with |- context [String.eqb ?x ""] =>
         destruct (String.eqb x "") eqn:E; simpl;
         [apply String.eqb_eq in E; subst; split; auto
         | split; [intros H; discriminate H
                  | intros [_ H]; injection H as ->; discriminate E]] end.
Qed.

Lemma map_validate_unusable : forall xs x, In x xs -> unusable_entry x ->
  exists e, validatePuzzleIdArray (JArr xs) = Throw e.
Proof.
  intros xs x Hin [s [-> [H1 H2]]]. unfold validatePuzzleIdArray.
  assert (Hf : In (JStr s) (filter keep_id xs)).
  { apply filter_In; split; auto. simpl. apply String.eqb_neq in H1; rewrite H1; reflexivity. }
  revert Hf; generalize (filter keep_id xs); intros l; induction l as [|y l IH]; intros Hf; [destruct Hf|].
  cbn [map_validatePuzzleId].
  destruct Hf as [->|Hf].
  - simpl. apply String.eqb_neq in H1; rewrite H1, H2. simpl. eauto.
  - destruct (validatePuzzleId y); eauto.
    destruct (IH Hf) as [e ->]; eauto.
Qed.

Lemma migrateWorldData_unusable : forall now wd xs x,
  (get wd "solvedPuzzles" = JArr xs \/ get wd "unlockedPuzzles" = JArr xs) ->
  In x xs -> unusable_entry x ->
  migrateWorldData now wd = default_world_record now.
Proof.
  intros now wd xs x Hx Hin Hu. unfold migrateWorldData.
  destruct (validateStorageWorldData wd); simpl; [|reflexivity].
  destruct (map_validate_unusable xs x Hin Hu) as [e He].
  destruct Hx as [Hx|Hx].
  - rewrite Hx, He; reflexivity.
  - rewrite Hx, He. destruct (validatePuzzleIdArray (get wd "solvedPuzzles")); reflexivity.
Qed.

Lemma transformFrom_unusable : forall w wd xs x,
  (get wd "solvedPuzzles" = JArr xs \/ get wd "unlockedPuzzles" = JArr xs) ->
  In x xs -> unusable_entry x ->
  exists e, transformFromStorageFormat w wd = Throw e.
Proof.
  intros w wd xs x Hx Hin Hu. unfold transformFromStorageFormat.
  destruct (negb (validateStorageWorldData wd)); eauto.
  destruct (validateWorldId w); eauto.
  destruct (map_validate_unusable xs x Hin Hu) as [e He].
  destruct Hx as [Hx|Hx].
  - rewrite Hx, He; eauto.
  - rewrite Hx, He. destruct (validatePuzzleIdArray (get wd "solvedPuzzles")); eauto.
Qed.

Lemma checkIntegrity_clean_current : forall now data,
  checkIntegrity data = Ok [] -> migrateToCurrentVersion now data = data.
Proof.
  intros now data H. unfold checkIntegrity in H.
  destruct (validateStorageData data) eqn:Hv; simpl in H; [|discriminate].
  destruct (isMigrationNeeded (get data "version")) eqn:Hm.
  - destruct (check_worlds _); discriminate.
  - unfold migrateToCurrentVersion.
    assert (Ho : is_obj data = true).
    { unfold validateStorageData in Hv. do 9 (apply andb_prop in Hv as [Hv _]). exact Hv. }
    rewrite Ho. simpl negb; cbv iota zeta.
    destruct (validateStorageData_version data Hv) as [v Hver].
    unfold version_or_zero. rewrite Hver in *. unfold isMigrationNeeded in Hm.
    simpl in Hm. destruct (String.eqb v CURRENT_SCHEMA_VERSION) eqn:E; [|discriminate].
    apply String.eqb_eq in E; subst. reflexivity.
Qed.

Lemma assoc_In_NoDup : forall l k v, NoDup (map fst l) -> In (k, v) l -> assoc k l = v.
Proof.
  induction l as [|[k0 v0] l IH]; simpl; intros k v Hnd Hin; [destruct Hin|].
  inversion Hnd as [|? ? Hnin Hnd']; subst.
  destruct Hin as [Heq|Hin].
  - injection Heq as -> ->. rewrite String.eqb_refl; reflexivity.
  - destruct (String.eqb_spec k k0) as [->|]; [|auto].
    exfalso; apply Hnin; apply (in_map fst) in Hin; exact Hin.
Qed.

Lemma assoc_In_key : forall l k, In k (map fst l) -> In (k, assoc k l) l.
Proof.
  induction l as [|[k0 v0] l IH]; simpl; intros k Hin; [destruct Hin|].
  destruct (String.eqb_spec k k0) as [->|Hne]; [left; reflexivity|].
  right; apply IH. destruct Hin as [->|]; [contradiction|auto].
Qed.


Lemma valid_record_truthy : forall v, validateStorageWorldData v = true -> truthy v = true.
Proof.
  intros v H; unfold validateStorageWorldData, is_obj in H.
  destruct (truthy v); [reflexivity|discriminate].
Qed.

Lemma valid_record_lastUpdated : forall v, validateStorageWorldData v = true ->
  exists t, getp v "lastUpdated" = Ok (JNum t) /\ get v "lastUpdated" = JNum t.
Proof.
  intros v H. pose proof (valid_record_truthy v H) as Ht.
  unfold validateStorageWorldData in H. apply andb_prop in H as [_ H].
  destruct (get v "lastUpdated") eqn:E; try discriminate.
  exists n; split; [|reflexivity].
  destruct v; try discriminate; simpl; f_equal; exact E.
Qed.

Lemma world_changed_same : forall v, validateStorageWorldData v = true ->
  world_changed v v = Ok false.
Proof.
  intros v H. unfold world_changed. rewrite (valid_record_truthy v H). simpl negb; cbv iota.
  destruct (valid_record_lastUpdated v H) as [t [-> ->]].
  simpl. rewrite Z.eqb_refl, !jsval_eqb_refl. reflexivity.
Qed.

Lemma changed_loop_same : forall W l,
  (forall k v, In (k, v) l -> get W k = v /\ validateStorageWorldData v = true) ->
  changed_worlds_loop W l = Ok [].
Proof.
  intros W; induction l as [|[k v] l IH]; intros H; simpl; [reflexivity|].
  destruct (H k v (or_introl eq_refl)) as [-> Hv].
  rewrite world_changed_same by exact Hv.
  rewrite IH by (intros; apply H; right; auto). reflexivity.
Qed.

Lemma deleted_loop_present : forall W ks,
  truthy W = true ->
  (forall k, In k ks -> truthy (get W k) = true) ->
  deleted_worlds_loop W ks = Ok [].
Proof.
  intros W; induction ks as [|k ks IH]; intros Hw H; simpl; [reflexivity|].
  assert (Hg : getp W k = Ok (get W k)) by (destruct W; try discriminate; reflexivity).
  rewrite Hg, IH; [| exact Hw | intros; apply H; right; auto].
  rewrite (H k (or_introl eq_refl)). reflexivity.
Qed.

Lemma findChangedWorlds_same_h : forall d,
  validateStorageData d = true -> NoDup (map fst (entries (get d "worlds"))) ->
  findChangedWorlds d d = Ok [].
Proof.
  intros d Hv Hnd.
  pose proof (validateStorageData_records d Hv) as Hrec.
  unfold validateStorageData in Hv.
  do 9 (apply andb_prop in Hv as [Hv ?]).
  apply andb_prop in Hv as [Htd _].
  set (W := get d "worlds") in *.
  unfold findChangedWorlds. rewrite Htd. fold W.
  match goal with H : truthy W = true |- _ => rename H into Htw end.
  rewrite Htw. simpl negb; cbv iota.
  assert (Hg : getp d "worlds" = Ok W) by (destruct d; try discriminate; reflexivity).
  rewrite Hg. unfold js_or. rewrite Htw.
  assert (Hget : forall k v, In (k, v) (entries W) -> get W k = v).
  { intros k v Hin. destruct W; simpl in Hin |- *; try contradiction;
      apply assoc_In_NoDup; auto. }
  rewrite changed_loop_same.
  2:{ intros k v Hin. split; [apply Hget, Hin|].
      rewrite forallb_forall in Hrec. apply (Hrec (k, v) Hin). }
  assert (Hk : object_keys W = Ok (map fst (entries W)))
    by (destruct W; try discriminate; reflexivity).
  rewrite Hk, deleted_loop_present; auto.
  intros k Hin. rewrite (Hget k (assoc k (entries W))) by (apply assoc_In_key, Hin).
  apply valid_record_truthy. rewrite forallb_forall in Hrec.
  apply (Hrec (k, assoc k (entries W))). apply assoc_In_key, Hin.
Qed.



Lemma bind_lift_ok {A B} (a : A) (k : A -> M B) : bind (lift (Ok a)) k = k a.
Proof. reflexivity. Qed.




Lemma jsval_eqb_eq : forall a b, jsval_eqb a b = true -> a = b.
Proof.
  fix IH 1. intros [| | x | x | x | xs | xs | fs |] [| | y | y | y | ys | ys | gs |] H;
    simpl in H; try discriminate; try reflexivity.
  - apply Bool.eqb_prop in H; subst; reflexivity.
  - apply Z.eqb_eq in H; subst; reflexivity.
  - apply String.eqb_eq in H; subst; reflexivity.
  - f_equal. revert xs ys H; fix IHl 1; intros [|x xs] [|y ys] H; simpl in H; try discriminate;
      [reflexivity|]. apply andb_prop in H as [H1 H2]. f_equal; [apply IH|apply IHl]; auto.
  - f_equal. revert xs ys H; fix IHl 1; intros [|x xs] [|y ys] H; simpl in H; try discriminate;
      [reflexivity|]. apply andb_prop in H as [H1 H2]. f_equal; [apply IH|apply IHl]; auto.
  - f_equal. revert fs gs H; fix IHf 1; intros [|[k x] fs] [|[k' y] gs] H; simpl in H;
      try discriminate; [reflexivity|].
    apply andb_prop in H as [H H2]; apply andb_prop in H as [H0 H1].
    apply String.eqb_eq in H0; subst. f_equal; [f_equal; apply IH|apply IHf]; auto.
Qed.

Lemma world_changed_diff : forall r old,
  validateStorageWorldData r = true ->
  (get r "lastUpdated" <> get old "lastUpdated" \/
   get r "solvedPuzzles" <> get old "solvedPuzzles" \/
   get r "unlockedPuzzles" <> get old "unlockedPuzzles") ->
  world_changed r old = Ok true.
Proof.
  intros r old Hv Hd. unfold world_changed.
  destruct (truthy old); simpl negb; cbv iota; [|reflexivity].
  destruct (valid_record_lastUpdated r Hv) as [t [-> Ht]].
  f_equal. rewrite Ht in Hd.
  destruct (same_value_zero (JNum t) (get old "lastUpdated")) eqn:E1; [|reflexivity].
  assert (Ho : get old "lastUpdated" = JNum t).
  { destruct (get old "lastUpdated"); try discriminate. simpl in E1.
    apply Z.eqb_eq in E1; subst; reflexivity. }
  destruct (jsval_eqb (get r "solvedPuzzles") (get old "solvedPuzzles")) eqn:E2; [|reflexivity].
  destruct (jsval_eqb (get r "unlockedPuzzles") (get old "unlockedPuzzles")) eqn:E3; [|reflexivity].
  apply jsval_eqb_eq in E2, E3. exfalso. rewrite Ho in Hd. tauto.
Qed.

Lemma changed_loop_set : forall W w r l,
  (forall k v, In (k, v) l -> get W k = v /\ validateStorageWorldData v = true) ->
  world_changed r (get W w) = Ok true ->
  changed_worlds_loop W (obj_set l w r) = Ok [w].
Proof.
  intros W w r; induction l as [|[k v] l IH]; intros H Hc; simpl.
  - rewrite Hc; reflexivity.
  - destruct (String.eqb_spec w k) as [<-|Hne]; simpl.
    + rewrite Hc, changed_loop_same; [reflexivity|]. intros; apply H; right; auto.
    + destruct (H k v (or_introl eq_refl)) as [-> Hv].
      rewrite world_changed_same by exact Hv.
      rewrite IH; auto. intros; apply H; right; auto.
Qed.

Lemma findChangedWorlds_one_h : forall oldData newData ows w r,
  get oldData "worlds" = JObj ows -> get newData "worlds" = JObj (obj_set ows w r) ->
  NoDup (map fst ows) -> forallb (fun '(_, wd) => validateStorageWorldData wd) ows = true ->
  validateStorageWorldData r = true ->
  (get r "lastUpdated" <> get (assoc w ows) "lastUpdated" \/
   get r "solvedPuzzles" <> get (assoc w ows) "solvedPuzzles" \/
   get r "unlockedPuzzles" <> get (assoc w ows) "unlockedPuzzles") ->
  findChangedWorlds oldData newData = Ok [w] /\ truthy newData = true.
Proof.
  intros oldData newData ows w r Ho Hn Hnd Hall Hr Hd.
  assert (To : truthy oldData = true) by (destruct oldData; try discriminate; reflexivity).
  assert (Tn : truthy newData = true) by (destruct newData; try discriminate; reflexivity).
  split; [|exact Tn].
  unfold findChangedWorlds. rewrite To, Ho. simpl negb; cbv iota.
  assert (Hg : getp newData "worlds" = Ok (JObj (obj_set ows w r)))
    by (destruct newData; try discriminate; simpl; simpl in Hn; rewrite Hn; reflexivity).
  rewrite Hg. cbn [js_or truthy entries].
  rewrite changed_loop_set.
  - cbn [object_keys js_or truthy entries].
    rewrite deleted_loop_present; [reflexivity|reflexivity|].
    intros k Hk. cbn [get entries]. rewrite assoc_obj_set.
    destruct (String.eqb k w); [apply valid_record_truthy, Hr|].
    apply valid_record_truthy. rewrite forallb_forall in Hall.
    apply (Hall (k, assoc k ows)), assoc_In_key, Hk.
  - intros k v Hin. cbn [get entries]. split; [apply assoc_In_NoDup; auto|].
    rewrite forallb_forall in Hall. apply (Hall (k, v) Hin).
  - apply world_changed_diff; auto.
Qed.

Lemma storageEventListener_one_h : forall now ge se tl fuel oldData newData ows w r p s,
  get oldData "worlds" = JObj ows -> get newData "worlds" = JObj (obj_set ows w r) ->
  NoDup (map fst ows) -> forallb (fun '(_, wd) => validateStorageWorldData wd) ows = true ->
  validateStorageWorldData r = true ->
  (get r "lastUpdated" <> get (assoc w ows) "lastUpdated" \/
   get r "solvedPuzzles" <> get (assoc w ows) "solvedPuzzles" \/
   get r "unlockedPuzzles" <> get (assoc w ows) "unlockedPuzzles") ->
  transformFromStorageFormat (JStr w) r = Ok p ->
  isUpdatingFromStorageEvent s = false ->
  findChangedWorlds oldData newData = Ok [w] /\
  storageEventListener now ge se tl fuel (Some STORAGE_KEY) (SlotText newData) (SlotText oldData) s
  = (Ok tt, push_progress (JStr w, p) s).
Proof.
  intros now ge se tl fuel oldData newData ows w r p s Ho Hn Hnd Hall Hr Hd Ht Hu.
  destruct (findChangedWorlds_one_h oldData newData ows w r Ho Hn Hnd Hall Hr Hd) as [Hc Tn].
  split; [exact Hc|].
  unfold storageEventListener. rewrite String.eqb_refl. cbn [negb].
  unfold bind at 1, gets. cbv beta iota. rewrite Hu.
  cbn [parse_event_value]. rewrite !bind_lift_ok. rewrite Tn. cbn [negb].
  rewrite Hc, bind_lift_ok. cbn [forEach].
  assert (Hg : getp (get newData "worlds") w = Ok r).
  { rewrite Hn. simpl. rewrite assoc_obj_set, String.eqb_refl. reflexivity. }
  rewrite Hg, bind_lift_ok, (valid_record_truthy r Hr), Ht, bind_lift_ok.
  reflexivity.
Qed.

Lemma getStorageData_empty : forall now se tl f r s,
  isStorageAvailable s = true -> slot s = SlotEmpty ->
  se (createDefaultStorageData now) = None -> tl (createDefaultStorageData now) = false ->
  exists s', getStorageData now None se tl (S (S f)) r s = (Ok (createDefaultStorageData now), s') /\
    slot s' = SlotText (createDefaultStorageData now) /\ progressEvents s' = progressEvents s /\
    errorEvents s' = errorEvents s.
Proof.
  intros now se tl f r s Ha Hs Hse Htl.
  simpl. run. rewrite Ha. simpl. rewrite Hs. simpl. rewrite Ha, Htl, Hse. simpl.
  eexists; split; [reflexivity|]. simpl. auto.
Qed.

Lemma storageEventListener_cleared_h : forall now se tl f ov s,
  isStorageAvailable s = true -> slot s = SlotEmpty -> isUpdatingFromStorageEvent s = false ->
  se (createDefaultStorageData now) = None -> tl (createDefaultStorageData now) = false ->
  ov <> SlotGarbage ->
  exists s', storageEventListener now None se tl (S (S f)) (Some STORAGE_KEY) SlotEmpty ov s
             = (Ok tt, s') /\
    slot s' = SlotText (createDefaultStorageData now) /\ progressEvents s' = progressEvents s.
Proof.
  intros now se tl f ov s Ha Hs Hu Hse Htl Hov.
  unfold storageEventListener. rewrite String.eqb_refl. cbn [negb].
  unfold bind at 1, gets. cbv beta iota. rewrite Hu.
  cbn [parse_event_value]. rewrite bind_lift_ok.
  destruct ov as [|d|]; [| |contradiction]; cbn [parse_event_value]; rewrite bind_lift_ok;
    cbn [truthy negb]; unfold handleCrossTabStorageCleared, try_catch, bind at 1;
    destruct (getStorageData_empty now se tl f 0 s) as (s1 & E & H1 & H2 & _); auto;
    rewrite E; exists s1; split; auto; reflexivity.
Qed.

Lemma getWorldProgress_never_throws : forall now ge se tl fuel worldId s,
  exists p s', getWorldProgress now ge se tl fuel worldId s = (Ok p, s').
Proof.
  intros now ge se tl fuel worldId s. unfold getWorldProgress, try_catch.
  match goal with |- context [match ?m s with _ => _ end] =>
    destruct (m s) as [[a|err] s'] eqn:Hm end; eauto.
  unfold bind, notifyErrorListeners, modify, ret; simpl.
  destruct (createDefaultWorldProgress now worldId); eauto.
Qed.

Lemma isPuzzleSolved_answers : forall now ge se tl fuel worldId puzzleId s,
  match validatePuzzleId puzzleId with
  | Throw _ => isPuzzleSolved now ge se tl fuel worldId puzzleId s =
      (Ok false, push_error (ProgressError VALIDATION_ERROR "Failed to check if puzzle is solved") s)
  | Ok q => exists p s', getWorldProgress now ge se tl fuel worldId s = (Ok p, s') /\
      isPuzzleSolved now ge se tl fuel worldId puzzleId s =
        (Ok (existsb (String.eqb q) (wp_solvedPuzzles p)), s')
  end.
Proof.
  intros now ge se tl fuel worldId puzzleId s. unfold isPuzzleSolved, try_catch.
  destruct (validatePuzzleId puzzleId) as [q|e]; [|reflexivity].
  rewrite bind_lift_ok. unfold bind at 1.
  destruct (getWorldProgress_never_throws now ge se tl fuel worldId s) as (p & s' & E).
  rewrite E. eauto.
Qed.

Lemma isPuzzleUnlocked_answers : forall now ge se tl fuel worldId puzzleId s,
  match validatePuzzleId puzzleId with
  | Throw _ => isPuzzleUnlocked now ge se tl fuel worldId puzzleId s =
      (Ok false, push_error (ProgressError VALIDATION_ERROR "Failed to check if puzzle is unlocked") s)
  | Ok q => exists p s', getWorldProgress now ge se tl fuel worldId s = (Ok p, s') /\
      isPuzzleUnlocked now ge se tl fuel worldId puzzleId s =
        (Ok (existsb (String.eqb q) (wp_unlockedPuzzles p)), s')
  end.
Proof.
  intros now ge se tl fuel worldId puzzleId s. unfold isPuzzleUnlocked, try_catch.
  destruct (validatePuzzleId puzzleId) as [q|e] eqn:Hq.
  - rewrite bind_lift_ok. unfold bind at 1.
    destruct (getWorldProgress_never_throws now ge se tl fuel worldId s) as (p & s' & E).
    rewrite E. eauto.
  - reflexivity.
Qed.

Lemma getUnlockedPuzzles_answers : forall now ge se tl fuel worldId s,
  exists p s', getWorldProgress now ge se tl fuel worldId s = (Ok p, s') /\
    getUnlockedPuzzles now ge se tl fuel worldId s = (Ok (wp_unlockedPuzzles p), s').
Proof.
  intros now ge se tl fuel worldId s. unfold getUnlockedPuzzles, try_catch, bind at 1.
  destruct (getWorldProgress_never_throws now ge se tl fuel worldId s) as (p & s' & E).
  rewrite E. eauto.
Qed.

Lemma getWorldProgress_current_read : forall now se tl f worldId w fs ws s,
  isStorageAvailable s = true -> slot s = SlotText (JObj fs) ->
  validateStorageData (JObj fs) = true -> get (JObj fs) "version" = JStr "1.0.0" ->
  get (JObj fs) "worlds" = JObj ws -> validateWorldId worldId = Ok w ->
  getWorldProgress now None se tl (S f) worldId s =
  try_catch
    (let worldData := assoc w ws in
     if negb (truthy worldData) then
       lift (createDefaultWorldProgress now (JStr w))
     else if negb (validateStorageWorldData worldData) then
       let repairedWorldData := migrateWorldData now worldData in
       data' <- lift (put_in (JObj fs) "worlds" w repairedWorldData) ;;
       saveStorageData now None se tl (S f) data' false 0 ;;
       notifyErrorListeners (ProgressError VALIDATION_ERROR
                      ("Invalid world data for " ++ w)%string) ;;
       lift (transformFromStorageFormat (JStr w) repairedWorldData)
     else lift (transformFromStorageFormat (JStr w) worldData))
    (fun error =>
       let progressError :=
         match etype error with
         | Some _ => error
         | None => ProgressError VALIDATION_ERROR
                     ("Failed to get progress for world: " ++ emsg error)%string
         end in
       notifyErrorListeners progressError ;;
       match createDefaultWorldProgress now worldId with
       | Ok p => ret p
       | Throw _ =>
           ret (mkWP (js_or worldId (JStr "unknown")) [] (new_Set ["puzzle_1"]) now
                     CURRENT_SCHEMA_VERSION)
       end) s.
Proof.
  intros now se tl f worldId w fs ws s Ha Hs Hv Hver Hw Hid.
  unfold getWorldProgress. rewrite Hid, bind_lift_ok.
  unfold try_catch at 1 2. unfold bind at 1.
  rewrite (getStorageData_current now se tl f 0 s fs Ha Hs Hv Hver).
  cbn [getp]. rewrite Hw, bind_lift_ok. cbn [getp get entries]. rewrite bind_lift_ok.
  reflexivity.
Qed.

Lemma getWorldProgress_missing_world_h : forall now se tl f worldId w fs ws s,
  isStorageAvailable s = true -> slot s = SlotText (JObj fs) ->
  validateStorageData (JObj fs) = true -> get (JObj fs) "version" = JStr "1.0.0" ->
  get (JObj fs) "worlds" = JObj ws -> validateWorldId worldId = Ok w ->
  ~ In w (map fst ws) ->
  getWorldProgress now None se tl (S f) worldId s =
    (Ok (mkWP (JStr w) [] ["puzzle_1"] now CURRENT_SCHEMA_VERSION), s).
Proof.
  intros now se tl f worldId w fs ws s Ha Hs Hv Hver Hw Hid Hn.
  rewrite (getWorldProgress_current_read now se tl f worldId w fs ws s); auto.
  assert (E : assoc w ws = JUndef).
  { clear -Hn. induction ws as [|[k v] ws IH]; simpl in *; [reflexivity|].
    destruct (String.eqb_spec w k) as [->|]; [tauto|]. apply IH; tauto. }
  cbv zeta. rewrite E. cbn [truthy negb].
  unfold createDefaultWorldProgress. rewrite (validateWorldId_fixed _ _ Hid).
  reflexivity.
Qed.

Lemma getWorldProgress_unusable_entry_h : forall now se tl f worldId w fs ws xs x s,
  isStorageAvailable s = true -> slot s = SlotText (JObj fs) ->
  validateStorageData (JObj fs) = true -> get (JObj fs) "version" = JStr "1.0.0" ->
  get (JObj fs) "worlds" = JObj ws -> validateWorldId worldId = Ok w ->
  (get (assoc w ws) "solvedPuzzles" = JArr xs \/ get (assoc w ws) "unlockedPuzzles" = JArr xs) ->
  In x xs -> unusable_entry x ->
  exists e, getWorldProgress now None se tl (S f) worldId s =
    (Ok (mkWP (JStr w) [] ["puzzle_1"] now CURRENT_SCHEMA_VERSION), push_error e s).
Proof.
  intros now se tl f worldId w fs ws xs x s Ha Hs Hv Hver Hw Hid Hx Hin Hu.
  rewrite (getWorldProgress_current_read now se tl f worldId w fs ws s); auto.
  assert (Hk : In w (map fst ws)).
  { clear -Hx. induction ws as [|[k v] ws IH]; simpl in *; [destruct Hx as [H|H]; discriminate|].
    destruct (String.eqb_spec w k) as [->|]; auto. }
  assert (Hr : validateStorageWorldData (assoc w ws) = true).
  { apply validateStorageData_records in Hv. rewrite Hw in Hv. cbn [entries] in Hv.
    rewrite forallb_forall in Hv. apply (Hv (w, assoc w ws)), assoc_In_key, Hk. }
  destruct (transformFrom_unusable (JStr w) _ xs x Hx Hin Hu) as [e He].
  cbv zeta. rewrite (valid_record_truthy _ Hr), Hr. cbn [negb].
  unfold try_catch, lift. rewrite He.
  unfold createDefaultWorldProgress. rewrite Hid. eexists; reflexivity.
Qed.

Lemma saveStorageData_written_eq : forall now ge se tl f d r s,
  validateStorageData d = true -> isStorageAvailable s = true ->
  se d = None -> tl d = false ->
  saveStorageData now ge se tl (S f) d false r s = (Ok tt, written d s).
Proof.
  intros now ge se tl f d r s Hv Ha Hse Htl.
  simpl. rewrite Hv. run. rewrite Ha, Htl, Hse. reflexivity.
Qed.

Lemma initializeStorage_empty_h : forall now se tl f s,
  isStorageAvailable s = true -> slot s = SlotEmpty ->
  se (createDefaultStorageData now) = None -> tl (createDefaultStorageData now) = false ->
  initializeStorage now None se tl (S f) s = (Ok None, written (createDefaultStorageData now) s).
Proof.
  intros now se tl f s Ha Hs Hse Htl.
  unfold initializeStorage, bind at 1, gets. rewrite Ha. cbn [negb].
  unfold attemptInitialization, try_catch, getItem, bind at 1, gets. rewrite Hs.
  unfold bind. rewrite saveStorageData_written_eq by (auto; reflexivity). reflexivity.
Qed.

Lemma checkIntegrity_old : forall data,
  validateStorageData data = true -> get data "version" <> JStr "1.0.0" ->
  exists is, checkIntegrity data = Ok (VersionMismatch (get data "version") :: is).
Proof.
  intros data Hv Hver.
  unfold checkIntegrity; rewrite Hv; simpl negb; cbv beta iota zeta.
  destruct (check_worlds_valid _ (validateStorageData_records data Hv)) as [is ->].
  destruct (validateStorageData_version data Hv) as [v Hvs].
  assert (Hm : isMigrationNeeded (get data "version") = true).
  { rewrite Hvs; unfold isMigrationNeeded, CURRENT_SCHEMA_VERSION; simpl.
    destruct (String.eqb v "1.0.0") eqn:E; [|reflexivity].
    apply String.eqb_eq in E; subst; contradiction. }
  rewrite Hm. eexists; reflexivity.
Qed.

Lemma repairStorageData_version_kept : forall now data,
  validateStorageData data = true ->
  get (repairStorageData now data) "version" = get data "version".
Proof.
  intros now data Hv. destruct (validateStorageData_version data Hv) as [v Hvs].
  assert (Ho : is_obj data = true).
  { unfold validateStorageData in Hv. do 9 (apply andb_prop in Hv as [Hv _]). exact Hv. }
  unfold repairStorageData. rewrite Ho. cbn [negb]. cbv zeta. rewrite Hvs. reflexivity.
Qed.

Lemma initializeStorage_old_version_h : forall now se tl f data s,
  isStorageAvailable s = true -> slot s = SlotText data ->
  validateStorageData data = true -> get data "version" <> JStr "1.0.0" ->
  se (repairStorageData now data) = None -> tl (repairStorageData now data) = false ->
  exists is, checkIntegrity data = Ok (VersionMismatch (get data "version") :: is) /\
  initializeStorage now None se tl (S f) s =
    (Ok None, push_error (ProgressError DATA_CORRUPTION
                ("Data integrity issues: " ++ String.concat ", "
                   (map issue_text (VersionMismatch (get data "version") :: is)))%string)
                (written (repairStorageData now data) s)) /\
  get (repairStorageData now data) "version" = get data "version".
Proof.
  intros now se tl f data s Ha Hs Hv Hver Hse Htl.
  destruct (checkIntegrity_old data Hv Hver) as [is Hc].
  exists is. split; [exact Hc|].
  split; [|apply repairStorageData_version_kept; exact Hv].
  assert (Hr : validateStorageData (repairStorageData now data) = true).
  { destruct (validateStorageData (repairStorageData now data)) eqn:E; [reflexivity|].
    apply repairStorageData_valid_iff in E as [_ E].
    unfold validateStorageData in Hv. rewrite E in Hv.
    do 8 (apply andb_prop in Hv as [Hv _]). apply andb_prop in Hv as [_ Hv]. discriminate. }
  unfold initializeStorage, bind at 1, gets. rewrite Ha. cbn [negb].
  unfold attemptInitialization, try_catch, getItem, bind at 1, gets. rewrite Hs.
  rewrite Hc, bind_lift_ok. cbv zeta.
  unfold bind. rewrite saveStorageData_written_eq by auto. reflexivity.
Qed.

Lemma valid_touch : forall now fs ms,
  validateStorageData (JObj fs) = true -> get (JObj fs) "metadata" = JObj ms ->
  validateStorageData (JObj (obj_set fs "metadata" (JObj (obj_set ms "lastAccessed" (JNum now)))))
  = true.
Proof.
  intros now fs ms Hv Hm.
  unfold validateStorageData in *. cbn [get entries] in *.
  rewrite !assoc_obj_set. simpl String.eqb. cbv iota. rewrite Hm in *.
  cbn [get entries is_obj truthy typeof_object is_num] in *.
  rewrite !assoc_obj_set. simpl String.eqb. cbv iota.
  repeat (apply andb_prop in Hv as [Hv ?]).
  repeat (apply andb_true_intro; split); auto.
Qed.

Lemma checkIntegrity_clean_valid : forall data,
  checkIntegrity data = Ok [] -> validateStorageData data = true.
Proof.
  intros data H. unfold checkIntegrity in H.
  destruct (validateStorageData data); [reflexivity|discriminate].
Qed.

Lemma initializeStorage_clean_h : forall now se tl f fs ms s,
  isStorageAvailable s = true -> slot s = SlotText (JObj fs) ->
  checkIntegrity (JObj fs) = Ok [] -> get (JObj fs) "metadata" = JObj ms ->
  let touched := JObj (obj_set fs "metadata" (JObj (obj_set ms "lastAccessed" (JNum now)))) in
  se touched = None -> tl touched = false ->
  initializeStorage now None se tl (S f) s = (Ok None, written touched s).
Proof.
  intros now se tl f fs ms s Ha Hs Hc Hm touched Hse Htl.
  pose proof (checkIntegrity_clean_valid _ Hc) as Hv.
  unfold initializeStorage, bind at 1, gets. rewrite Ha. cbn [negb].
  unfold attemptInitialization, try_catch at 1, getItem, bind at 1, gets. rewrite Hs.
  rewrite Hc, bind_lift_ok.
  unfold try_catch at 1. rewrite (checkIntegrity_clean_current now _ Hc), jsval_eqb_refl.
  cbn [negb]. unfold bind at 1, ret at 1.
  unfold put_in. cbn [getp]. rewrite Hm. cbn [put]. rewrite bind_lift_ok.
  unfold bind. rewrite saveStorageData_written_eq; auto.
  apply valid_touch; auto.
Qed.

Lemma forEach_clearTimeout : forall (ms : list (string * nat)) s,
  forEach ms (fun '(_, timeoutId) => clearTimeout timeoutId) s =
  (Ok tt, set_timers (filter (fun '(i, _) => negb (existsb (Nat.eqb i) (map snd ms))) (timers s))
                     (nextTimerId s) s).
Proof.
  induction ms as [|[k id] ms IH]; intros s; simpl.
  - unfold ret. f_equal. destruct s as [a b c d e ts n p q r u]. unfold set_timers; simpl.
    f_equal. induction ts as [|[i t] ts IHt]; simpl; [reflexivity|]. f_equal; exact IHt.
  - unfold bind, clearTimeout. rewrite IH. simpl. f_equal. unfold set_timers. simpl.
    f_equal. generalize (timers s) as ts.
    induction ts as [|[i t] ts IHt]; simpl; [reflexivity|].
    destruct (Nat.eqb i id); simpl.
    + rewrite IHt. reflexivity.
    + destruct (existsb (Nat.eqb i) (map snd ms)); simpl; [exact IHt|f_equal; exact IHt].
Qed.

Lemma find_filtered : forall id (P : nat -> bool) (ts : list (nat * Timer)),
  P id = false ->
  find (fun '(i, _) => Nat.eqb i id) (filter (fun '(i, _) => P i) ts) = None.
Proof.
  intros id P ts HP; induction ts as [|[i t] ts IH]; simpl; [reflexivity|].
  destruct (P i) eqn:E; simpl; [|exact IH].
  destruct (Nat.eqb_spec i id) as [->|]; [congruence|exact IH].
Qed.

Lemma flushPendingSaves_discards_h : forall now ge se tl fuel s,
  exists s', flushPendingSaves s = (Ok tt, s') /\
    saveTimeouts s' = [] /\
    timers s' = filter (fun '(i, _) => negb (existsb (Nat.eqb i) (map snd (saveTimeouts s))))
                       (timers s) /\
    slot s' = slot s /\ inMemoryStorage s' = inMemoryStorage s /\
    progressEvents s' = progressEvents s /\ errorEvents s' = errorEvents s /\
    (forall w id, In (w, id) (saveTimeouts s) ->
       fireTimer now ge se tl fuel id s' = (Ok tt, s')).
Proof.
  intros now ge se tl fuel s. unfold flushPendingSaves, bind at 1, gets, bind.
  rewrite forEach_clearTimeout. unfold modify.
  eexists; split; [reflexivity|]. simpl. repeat split; try reflexivity.
  intros w id Hin. unfold fireTimer, bind, gets. simpl.
  rewrite find_filtered; [reflexivity|].
  apply negb_false_iff, existsb_exists. exists id; split; [|apply Nat.eqb_refl].
  apply in_map_iff. exists (w, id); auto.
Qed.

Lemma saveImmediate_ok : forall now ge se tl fuel w p s,
  exists s', _saveWorldProgressImmediate now ge se tl fuel w p s = (Ok tt, s').
Proof.
  intros. unfold _saveWorldProgressImmediate, try_catch.
  match goal with |- context [match ?m s with _ => _ end] =>
    destruct (m s) as [[[]|e] s'] eqn:Hm end; eauto.
  unfold bind, setTimeout, ret; eauto.
Qed.

Lemma assoc_nat_map_set : forall m k k' v,
  assoc_nat k (map_set m k' v) = if String.eqb k k' then Some v else assoc_nat k m.
Proof.
  induction m as [|[k0 v0] m IH]; intros k k' v; simpl.
  - destruct (String.eqb k k'); reflexivity.
  - destruct (String.eqb_spec k' k0) as [->|Hne]; simpl.
    + destruct (String.eqb k k0); reflexivity.
    + rewrite IH. destruct (String.eqb_spec k k0) as [->|]; [|reflexivity].
      destruct (String.eqb_spec k0 k') as [->|]; [contradiction|reflexivity].
Qed.

Lemma find_appended : forall (ts : list (nat * Timer)) n t,
  Forall (fun '(i, _) => i < n) ts ->
  find (fun '(i, _) => Nat.eqb i n) (ts ++ [(n, t)]) = Some (n, t).
Proof.
  induction ts as [|[i t0] ts IH]; intros n t H; simpl; [rewrite Nat.eqb_refl; reflexivity|].
  inversion H as [|? ? Hi Hr]; subst.
  destruct (Nat.eqb_spec i n) as [->|]; [lia|]. apply IH, Hr.
Qed.

Lemma find_cleared : forall (ts : list (nat * Timer)) id n t,
  id <> n ->
  find (fun '(i, _) => Nat.eqb i id)
       (filter (fun '(i, _) => negb (Nat.eqb i id)) ts ++ [(n, t)]) = None.
Proof.
  induction ts as [|[i t0] ts IH]; intros id n t H; simpl.
  - destruct (Nat.eqb_spec n id); [congruence|reflexivity].
  - destruct (Nat.eqb_spec i id) as [->|]; simpl; [apply IH; auto|].
    destruct (Nat.eqb_spec i id); [contradiction|]. apply IH; auto.
Qed.

Lemma Forall_filter_timers : forall (P : nat * Timer -> bool) ts n,
  Forall (fun '(i, _) => i < n) ts -> Forall (fun '(i, _) => i < n) (filter P ts).
Proof.
  intros P ts n H. apply Forall_forall. intros [i t] Hin.
  apply filter_In in Hin as [Hin _]. rewrite Forall_forall in H. apply (H _ Hin).
Qed.

Lemma bind_ret {A B} (a : A) (k : A -> M B) : bind (ret a) k = k a.
Proof. reflexivity. Qed.

Lemma saveWorldProgress_debounce_h : forall now ge se tl fuel worldId progress w s,
  validateWorldId worldId = Ok w ->
  Forall (fun '(i, _) => i < nextTimerId s) (timers s) ->
  (forall id, assoc_nat w (saveTimeouts s) = Some id -> id < nextTimerId s) ->
  exists p s', saveWorldProgress now ge se tl fuel worldId progress false s = (Ok tt, s') /\
    slot s' = slot s /\ inMemoryStorage s' = inMemoryStorage s /\
    assoc_nat w (saveTimeouts s') = Some (nextTimerId s) /\
    (forall k, k <> w -> assoc_nat k (saveTimeouts s') = assoc_nat k (saveTimeouts s)) /\
    find (fun '(i, _) => Nat.eqb i (nextTimerId s)) (timers s')
      = Some (nextTimerId s, TDebouncedSave w p) /\
    (forall id, assoc_nat w (saveTimeouts s) = Some id ->
       find (fun '(i, _) => Nat.eqb i id) (timers s') = None) /\
    progressEvents s' = progressEvents s ++ [(JStr w, p)].
Proof.
  intros now ge se tl fuel worldId progress w s Hid Ht Hs.
  unfold saveWorldProgress, try_catch. rewrite Hid, bind_lift_ok.
  assert (K : forall s0 p, slot s0 = slot s -> inMemoryStorage s0 = inMemoryStorage s ->
            saveTimeouts s0 = saveTimeouts s -> timers s0 = timers s ->
            nextTimerId s0 = nextTimerId s -> progressEvents s0 = progressEvents s ->
    exists s', (pending <- gets (fun s => assoc_nat w (saveTimeouts s)) ;;
       (match pending with Some id => clearTimeout id | None => ret tt end) ;;
       timeoutId <- setTimeout (TDebouncedSave w p) ;;
       ms <- gets saveTimeouts ;;
       modify (set_saveTimeouts (map_set ms w timeoutId)) ;;
       notifyProgressChange (JStr w) p) s0 = (Ok tt, s') /\
    slot s' = slot s /\ inMemoryStorage s' = inMemoryStorage s /\
    assoc_nat w (saveTimeouts s') = Some (nextTimerId s) /\
    (forall k, k <> w -> assoc_nat k (saveTimeouts s') = assoc_nat k (saveTimeouts s)) /\
    find (fun '(i, _) => Nat.eqb i (nextTimerId s)) (timers s')
      = Some (nextTimerId s, TDebouncedSave w p) /\
    (forall id, assoc_nat w (saveTimeouts s) = Some id ->
       find (fun '(i, _) => Nat.eqb i id) (timers s') = None) /\
    progressEvents s' = progressEvents s ++ [(JStr w, p)]).
  { intros s0 p E1 E2 E3 E4 E5 E6.
    unfold bind, gets, clearTimeout, setTimeout, modify, notifyProgressChange, ret.
    rewrite E3. destruct (assoc_nat w (saveTimeouts s)) as [id|] eqn:Ha; simpl.
    - eexists; split; [reflexivity|]. simpl.
      rewrite E1, E2, E3, E4, E5, E6, !assoc_nat_map_set, String.eqb_refl.
      split; [reflexivity|]. split; [reflexivity|]. split; [reflexivity|].
      split; [intros k Hk; rewrite assoc_nat_map_set; apply String.eqb_neq in Hk; rewrite Hk; reflexivity|].
      split; [apply find_appended, Forall_filter_timers, Ht|].
      split; [|reflexivity].
      intros id' Hid'. injection Hid' as <-. apply find_cleared.
      specialize (Hs id eq_refl). lia.
    - eexists; split; [reflexivity|]. simpl.
      rewrite E1, E2, E3, E4, E5, E6, !assoc_nat_map_set, String.eqb_refl.
      split; [reflexivity|]. split; [reflexivity|]. split; [reflexivity|].
      split; [intros k Hk; rewrite assoc_nat_map_set; apply String.eqb_neq in Hk; rewrite Hk; reflexivity|].
      split; [apply find_appended, Ht|].
      split; [intros; discriminate|reflexivity]. }
  match goal with |- context [bind ?m0 ?k ?st] =>
    match m0 with match sanitizeWorldProgress _ _ with _ => _ end =>
    set (M0 := m0) end end.
  assert (S0 : exists p s1, M0 s = (Ok p, s1) /\ slot s1 = slot s /\
              inMemoryStorage s1 = inMemoryStorage s /\ saveTimeouts s1 = saveTimeouts s /\
              timers s1 = timers s /\ nextTimerId s1 = nextTimerId s /\
              progressEvents s1 = progressEvents s).
  { subst M0. destruct (sanitizeWorldProgress now (spread_with_worldId progress w)) as [p0|e0].
    - exists p0, s. repeat split.
    - eexists _, _. split; [reflexivity|]. repeat split. }
  destruct S0 as (p & s1 & E0 & F1 & F2 & F3 & F4 & F5 & F6).
  unfold bind at 1. rewrite E0.
  destruct (K s1 p) as (s' & E & R); auto. exists p, s'. cbv beta iota.
  cbv beta iota in E. rewrite E. auto.
Qed.

Lemma saveWorldProgress_outcome : forall now ge se tl fuel worldId progress immediate s,
  match validateWorldId worldId with
  | Ok _ => exists s', saveWorldProgress now ge se tl fuel worldId progress immediate s
                       = (Ok tt, s')
  | Throw _ => exists e, saveWorldProgress now ge se tl fuel worldId progress immediate s
                         = (Throw e, push_error e s)
  end.
Proof.
  intros now ge se tl fuel worldId progress immediate s.
  unfold saveWorldProgress, try_catch.
  destruct (validateWorldId worldId) as [w|e].
  - rewrite bind_lift_ok.
    assert (K : forall s0 p, exists s',
      (if immediate then _saveWorldProgressImmediate now ge se tl fuel w p
       else pending <- gets (fun s => assoc_nat w (saveTimeouts s)) ;;
       (match pending with Some id => clearTimeout id | None => ret tt end) ;;
       timeoutId <- setTimeout (TDebouncedSave w p) ;;
       ms <- gets saveTimeouts ;;
       modify (set_saveTimeouts (map_set ms w timeoutId)) ;;
       notifyProgressChange (JStr w) p) s0 = (Ok tt, s')).
    { intros s0 p. destruct immediate; [apply saveImmediate_ok|].
      unfold bind, gets, clearTimeout, setTimeout, modify, notifyProgressChange, ret.
      destruct (assoc_nat w (saveTimeouts s0)); eexists; reflexivity. }
    match goal with |- context [bind ?m0 ?k ?st] =>
      match m0 with match sanitizeWorldProgress _ _ with _ => _ end =>
      set (M0 := m0) end end.
    assert (S0 : exists p s1, M0 s = (Ok p, s1)).
    { subst M0. destruct (sanitizeWorldProgress now (spread_with_worldId progress w));
        eexists _, _; reflexivity. }
    destruct S0 as (p & s1 & E0).
    unfold bind at 1. rewrite E0.
    destruct (K s1 p) as (s' & E). exists s'. cbv beta iota.
    cbv beta iota in E. rewrite E. reflexivity.
  - unfold bind, lift, notifyErrorListeners, modify, throw. eexists; reflexivity.
Qed.

Lemma kt_ret {A} (a : A) : keeps_timeouts (ret a).
Proof. intros s; reflexivity. Qed.
Lemma kt_throw {A} (e : JsError) : keeps_timeouts (@throw A e).
Proof. intros s; reflexivity. Qed.
Lemma kt_gets {A} (f : Service -> A) : keeps_timeouts (gets f).
Proof. intros s; reflexivity. Qed.
Lemma kt_lift {A} (r : result A) : keeps_timeouts (lift r).
Proof. intros s; reflexivity. Qed.
Lemma kt_modify (f : Service -> Service) :
  (forall s, saveTimeouts (f s) = saveTimeouts s) -> keeps_timeouts (modify f).
Proof. intros H s; apply H. Qed.
Lemma kt_bind {A B} (m : M A) (k : A -> M B) :
  keeps_timeouts m -> (forall a, keeps_timeouts (k a)) -> keeps_timeouts (bind m k).
Proof.
  intros Hm Hk s; unfold bind; specialize (Hm s).
  destruct (m s) as [[a|e] s']; simpl in *; [rewrite Hk|]; auto.
Qed.
Lemma kt_try {A} (m : M A) (h : JsError -> M A) :
  keeps_timeouts m -> (forall e, keeps_timeouts (h e)) -> keeps_timeouts (try_catch m h).
Proof.
  intros Hm Hh s; unfold try_catch; specialize (Hm s).
  destruct (m s) as [[a|e] s']; simpl in *; [|rewrite Hh]; auto.
Qed.
Lemma kt_setTimeout t : keeps_timeouts (setTimeout t).
Proof. intros s; reflexivity. Qed.
Lemma kt_notifyErrorListeners e : keeps_timeouts (notifyErrorListeners e).
Proof. intros s; reflexivity. Qed.
Lemma kt_getItem ge : keeps_timeouts (getItem ge).
Proof. intros s; unfold getItem; destruct ge; reflexivity. Qed.
Lemma kt_setItem se d : keeps_timeouts (setItem se d).
Proof. intros s; unfold setItem; destruct (se d); reflexivity. Qed.
Lemma kt_removeItem : keeps_timeouts removeItem.
Proof. intros s; reflexivity. Qed.

Create HintDb timeouts.
#[local] Hint Resolve kt_ret kt_throw kt_gets kt_lift kt_setTimeout
  kt_notifyErrorListeners kt_getItem kt_setItem kt_removeItem : timeouts.

Ltac keeps_timeouts_tac :=
  repeat match goal with
  | |- keeps_timeouts (bind _ _) => apply kt_bind; [|intros ?]
  | |- keeps_timeouts (try_catch _ _) => apply kt_try; [|intros ?]
  | |- keeps_timeouts (modify _) => apply kt_modify; intros ?; reflexivity
  | |- keeps_timeouts (if ?b then _ else _) =>
      lazymatch b with true => fail | false => fail | _ => destruct b end
  | |- keeps_timeouts (match ?x with _ => _ end) => destruct x
  | |- keeps_timeouts _ => progress cbv beta zeta
  | |- keeps_timeouts _ => solve [auto with timeouts]
  end.

Lemma storage_keeps_timeouts : forall now ge se tl fuel,
  (forall r, keeps_timeouts (getStorageData now ge se tl fuel r)) /\
  (forall d b r, keeps_timeouts (saveStorageData now ge se tl fuel d b r)) /\
  (forall e op r, keeps_timeouts (handleStorageError now ge se tl fuel e op r)) /\
  keeps_timeouts (fallbackToMemoryStorage now ge se tl fuel) /\
  keeps_timeouts (repairCorruptedData now ge se tl fuel) /\
  keeps_timeouts (attemptStorageReset now ge se tl fuel) /\
  keeps_timeouts (getStorageDataSafe now ge se tl fuel) /\
  keeps_timeouts (cleanupOldData now ge se tl fuel).
Proof.
  intros now ge se tl fuel; induction fuel as [|f IH].
  - repeat split; intros; apply kt_throw.
  - destruct IH as (H1 & H2 & H3 & H4 & H5 & H6 & H7 & H8).
    repeat split; intros; cbn [getStorageData saveStorageData handleStorageError
      fallbackToMemoryStorage repairCorruptedData attemptStorageReset getStorageDataSafe
      cleanupOldData]; keeps_timeouts_tac.
Qed.

Lemma saveImmediate_keeps_timeouts : forall now ge se tl fuel w p,
  keeps_timeouts (_saveWorldProgressImmediate now ge se tl fuel w p).
Proof.
  intros. destruct (storage_keeps_timeouts now ge se tl fuel) as (H1 & H2 & _).
  unfold _saveWorldProgressImmediate. keeps_timeouts_tac.
Qed.

Lemma assoc_nat_map_delete : forall m k k',
  assoc_nat k (map_delete m k') = if String.eqb k k' then None else assoc_nat k m.
Proof.
  induction m as [|[k0 v0] m IH]; intros k k'; unfold map_delete in *; simpl.
  - destruct (String.eqb k k'); reflexivity.
  - destruct (String.eqb_spec k' k0) as [->|Hne]; simpl.
    + rewrite IH. destruct (String.eqb_spec k k0) as [->|]; reflexivity.
    + destruct (String.eqb_spec k k0) as [->|].
      * destruct (String.eqb_spec k0 k') as [->|]; [contradiction|reflexivity].
      * apply IH.
Qed.

Lemma fireTimer_debounced_h : forall now ge se tl fuel id i w p s,
  find (fun '(j, _) => Nat.eqb j id) (timers s) = Some (i, TDebouncedSave w p) ->
  exists s', fireTimer now ge se tl fuel id s = (Ok tt, s') /\
    assoc_nat w (saveTimeouts s') = None /\
    (forall k, k <> w -> assoc_nat k (saveTimeouts s') = assoc_nat k (saveTimeouts s)).
Proof.
  intros now ge se tl fuel id i w p s Hf.
  unfold fireTimer, bind at 1, gets. rewrite Hf.
  unfold bind at 1, clearTimeout at 1. cbn [runTimer].
  set (s0 := set_timers _ _ s).
  assert (H0 : saveTimeouts s0 = saveTimeouts s) by reflexivity.
  set (m := try_catch _ _).
  assert (Km : keeps_timeouts m).
  { apply kt_try; [apply saveImmediate_keeps_timeouts|intros; apply kt_notifyErrorListeners]. }
  assert (Om : exists s1, m s0 = (Ok tt, s1)).
  { subst m. unfold try_catch.
    destruct (saveImmediate_ok now ge se tl fuel w p s0) as [s1 E]. rewrite E. eauto. }
  destruct Om as [s1 E]. specialize (Km s0). rewrite E in Km. simpl in Km.
  unfold bind at 1. rewrite E. unfold bind, gets, modify.
  eexists; split; [reflexivity|]. simpl. rewrite assoc_nat_map_delete, String.eqb_refl.
  split; [reflexivity|]. intros k Hk. rewrite assoc_nat_map_delete.
  apply String.eqb_neq in Hk. rewrite Hk, Km. reflexivity.
Qed.

Lemma forallb_filter_sub : forall (P Q : string * jsval -> bool) l,
  forallb P l = true -> forallb P (filter Q l) = true.
Proof.
  intros P Q l H. rewrite forallb_forall in *. intros x Hx.
  apply filter_In in Hx as [Hx _]. auto.
Qed.

Lemma valid_filter_worlds : forall fs ws Q,
  validateStorageData (JObj fs) = true -> get (JObj fs) "worlds" = JObj ws ->
  validateStorageData (JObj (obj_set fs "worlds" (JObj (filter Q ws)))) = true.
Proof.
  intros fs ws Q Hv Hw.
  unfold validateStorageData in *. cbn [get entries] in *.
  rewrite !assoc_obj_set. simpl String.eqb. cbv iota. rewrite Hw in *.
  cbn [get entries is_obj truthy typeof_object is_num] in *.
  repeat (apply andb_prop in Hv as [Hv ?]).
  repeat (apply andb_true_intro; split); auto.
  apply forallb_filter_sub; auto.
Qed.


Lemma cleanupOldData_current_h : forall now se tl f fs ws s,
  isStorageAvailable s = true -> slot s = SlotText (JObj fs) ->
  validateStorageData (JObj fs) = true -> get (JObj fs) "version" = JStr "1.0.0" ->
  get (JObj fs) "worlds" = JObj ws ->
  se (cleaned_document now fs ws) = None -> tl (cleaned_document now fs ws) = false ->
  cleanupOldData now None se tl (S (S f)) s = (Ok tt, written (cleaned_document now fs ws) s).
Proof.
  intros now se tl f fs ws s Ha Hs Hv Hver Hw Hse Htl.
  remember (S f) as g eqn:Hg. simpl cleanupOldData. subst g.
  unfold try_catch, bind at 1.
  rewrite (getStorageData_current now se tl f 0 s fs Ha Hs Hv Hver).
  cbv zeta. cbn [getp]. rewrite Hw, bind_lift_ok. cbn [entries]. rewrite bind_lift_ok.
  cbn [put]. rewrite bind_lift_ok.
  rewrite saveStorageData_written_eq; auto.
  apply valid_filter_worlds; auto.
Qed.

Lemma handleStorageError_quota_h : forall now se tl f err op r fs ws s,
  String.eqb (ename err) "QuotaExceededError" = true \/ Z.eqb (ecode err) 22 = true ->
  r < 3 ->
  isStorageAvailable s = true -> slot s = SlotText (JObj fs) ->
  validateStorageData (JObj fs) = true -> get (JObj fs) "version" = JStr "1.0.0" ->
  get (JObj fs) "worlds" = JObj ws ->
  se (cleaned_document now fs ws) = None -> tl (cleaned_document now fs ws) = false ->
  handleStorageError now None se tl (S (S (S f))) err op r s
  = (Ok true, written (cleaned_document now fs ws) (count_error s)).
Proof.
  intros now se tl f err op r fs ws s Hq Hr Ha Hs Hv Hver Hw Hse Htl.
  remember (S (S f)) as g eqn:Hg. simpl handleStorageError. subst g.
  unfold bind at 1, modify at 1. cbv zeta.
  assert (Hq' : (String.eqb (ename err) "QuotaExceededError" || Z.eqb (ecode err) 22) = true)
    by (destruct Hq as [-> | ->]; [reflexivity|apply orb_true_r]).
  rewrite Hq'. unfold try_catch, bind at 1 2.
  rewrite (cleanupOldData_current_h now se tl f fs ws (count_error s)); auto.
  assert (Hr' : Nat.ltb r maxRetries = true) by (apply Nat.ltb_lt; unfold maxRetries; lia).
  rewrite Hr'. reflexivity.
Qed.

Lemma map_JStr_inj : forall a b, map JStr a = map JStr b -> a = b.
Proof.
  induction a as [|x a IH]; intros [|y b] H; simpl in H; try discriminate; auto.
  injection H as -> H. f_equal; auto.
Qed.

Lemma transformTo_canonical : forall x sol unl t v,
  Forall canonical_puzzle (map JStr sol) -> Forall canonical_puzzle (map JStr unl) ->
  transformToStorageFormat (wp_to_js (mkWP (JStr x) sol unl t v)) = Ok (storage_record sol unl t).
Proof.
  intros x sol unl t v Cs Cu.
  destruct (canonical_list _ Cs) as [ss [Es Hss]]. apply map_JStr_inj in Es; subst ss.
  destruct (canonical_list _ Cu) as [us [Eu Hus]]. apply map_JStr_inj in Eu; subst us.
  unfold transformToStorageFormat. cbn -[validatePuzzleIdArray]. rewrite Hss, Hus. reflexivity.
Qed.

Lemma valid_update_rec : forall now fs ws ms w r,
  validateStorageData (JObj fs) = true ->
  get (JObj fs) "worlds" = JObj ws -> get (JObj fs) "metadata" = JObj ms ->
  validateStorageWorldData r = true ->
  validateStorageData
    (JObj (obj_set (obj_set fs "worlds" (JObj (obj_set ws w r)))
                   "metadata" (JObj (obj_set ms "lastAccessed" (JNum now))))) = true.
Proof.
  intros now fs ws ms w r Hv Hw Hm Hr.
  unfold validateStorageData in *. cbn [get entries] in *.
  rewrite !assoc_obj_set. simpl String.eqb. cbv iota. rewrite Hw, Hm in *.
  cbn [get entries is_obj truthy typeof_object is_num] in *.
  rewrite !assoc_obj_set. simpl String.eqb. cbv iota.
  repeat (apply andb_prop in Hv as [Hv ?]).
  repeat (apply andb_true_intro; split); auto.
  apply forallb_obj_set; auto.
Qed.

Lemma fireTimer_debounced_persists_h : forall now se tl f id i w x sol unl t v fs ws ms s,
  find (fun '(j, _) => Nat.eqb j id) (timers s) = Some (i, TDebouncedSave w (mkWP (JStr x) sol unl t v)) ->
  Forall canonical_puzzle (map JStr sol) -> Forall canonical_puzzle (map JStr unl) ->
  isStorageAvailable s = true -> slot s = SlotText (JObj fs) ->
  validateStorageData (JObj fs) = true -> get (JObj fs) "version" = JStr "1.0.0" ->
  get (JObj fs) "worlds" = JObj ws -> get (JObj fs) "metadata" = JObj ms ->
  let d := JObj (obj_set (obj_set fs "worlds" (JObj (obj_set ws w (storage_record sol unl t))))
                         "metadata" (JObj (obj_set ms "lastAccessed" (JNum now)))) in
  se d = None -> tl d = false ->
  exists s', fireTimer now None se tl (S f) id s = (Ok tt, s') /\
    slot s' = SlotText d /\ assoc_nat w (saveTimeouts s') = None /\
    progressEvents s' = progressEvents s /\ errorEvents s' = errorEvents s.
Proof.
  intros now se tl f id i w x sol unl t v fs ws ms s Hf Cs Cu Ha Hs Hv Hver Hw Hm d Hse Htl.
  unfold fireTimer, bind at 1, gets. rewrite Hf.
  unfold bind at 1, clearTimeout at 1. cbn [runTimer].
  set (s0 := set_timers _ _ s).
  unfold _saveWorldProgressImmediate.
  rewrite (transformTo_canonical x sol unl t v Cs Cu), bind_lift_ok.
  unfold try_catch, bind.
  rewrite (getStorageData_current now se tl f 0 s0 fs Ha Hs Hv Hver).
  unfold put_in, lift. cbn [getp]. rewrite Hw. cbn [put get entries].
  cbn [getp get entries]. rewrite assoc_obj_set. simpl String.eqb. cbv iota.
  cbn [get entries] in Hm. rewrite Hm. cbn [put].
  rewrite saveStorageData_written_eq; auto.
  - unfold gets, modify. eexists; split; [reflexivity|]. simpl.
    rewrite assoc_nat_map_delete, String.eqb_refl. auto.
  - apply valid_update_rec; auto.
Qed.

Lemma validatePuzzleId_fixed : forall v p,
  validatePuzzleId v = Ok p -> validatePuzzleId (JStr p) = Ok p.
Proof.
  intros [| | | |s| | | |] p H; simpl in H; try discriminate.
  destruct (String.eqb (trim s) "") eqn:E1; [discriminate|].
  destruct (String.eqb (strip (trim s)) "") eqn:E2; [discriminate|].
  injection H as <-. simpl.
  pose proof (strip_chars (trim s)) as Hc.
  rewrite (trim_id _ Hc), E2, (strip_id _ Hc), E2. reflexivity.
Qed.

Lemma validatePuzzleIdArray_canonical : forall v ps,
  validatePuzzleIdArray v = Ok ps -> Forall canonical_puzzle (map JStr ps).
Proof.
  intros [| | | | | xs | | |] ps H; simpl in H; try discriminate.
  revert ps H; generalize (filter keep_id xs); intros l; induction l as [|x l IH]; intros ps H.
  - injection H as <-. constructor.
  - cbn [map_validatePuzzleId] in H.
    destruct (validatePuzzleId x) as [p|e] eqn:Ex; [|discriminate].
    destruct (map_validatePuzzleId l) as [qs|e]; [|discriminate].
    injection H as <-. constructor; [|apply IH; reflexivity].
    exists p; split; [reflexivity|]. apply (validatePuzzleId_fixed x), Ex.
Qed.

Lemma Forall_new_Set : forall xs, Forall canonical_puzzle (map JStr xs) ->
  Forall canonical_puzzle (map JStr (new_Set xs)).
Proof.
  intros xs H. rewrite Forall_forall in *. intros v Hv.
  apply in_map_iff in Hv as [y [<- Hy]]. rewrite new_Set_In in Hy.
  apply H, in_map, Hy.
Qed.

Lemma canonical_puzzle_1 : Forall canonical_puzzle (map JStr ["puzzle_1"]).
Proof. constructor; [exists "puzzle_1"; split; reflexivity|constructor]. Qed.


Lemma sanitize_canonical : forall now v p,
  sanitizeWorldProgress now v = Ok p -> progress_canonical p.
Proof.
  intros now v p H. unfold sanitizeWorldProgress in H.
  destruct (negb (is_obj v)); [discriminate|].
  destruct (validateWorldId (or_empty (get v "worldId"))) as [w|e]; [|discriminate].
  injection H as <-. split; [eexists; reflexivity|]. cbn [wp_solvedPuzzles wp_unlockedPuzzles].
  split.
  - destruct (truthy (get v "solvedPuzzles")); [|constructor].
    destruct (iter (get v "solvedPuzzles")) as [a|]; [|constructor].
    destruct (map_validatePuzzleId (filter keep_id a)) as [vs|e] eqn:E; [|constructor].
    apply Forall_new_Set, (validatePuzzleIdArray_canonical (JArr a) _ E).
  - destruct (truthy (get v "unlockedPuzzles")); [|apply Forall_new_Set, canonical_puzzle_1].
    destruct (iter (get v "unlockedPuzzles")) as [a|]; [|apply Forall_new_Set, canonical_puzzle_1].
    destruct (map_validatePuzzleId (filter keep_id a)) as [vs|e] eqn:E;
      [|apply Forall_new_Set, canonical_puzzle_1].
    apply Forall_new_Set. simpl.
    constructor; [exists "puzzle_1"; split; reflexivity|].
    apply (validatePuzzleIdArray_canonical (JArr a) _ E).
Qed.

Lemma saveWorldProgress_debounce_core : forall now ge se tl fuel worldId progress w s,
  validateWorldId worldId = Ok w ->
  Forall (fun '(i, _) => i < nextTimerId s) (timers s) ->
  (forall id, assoc_nat w (saveTimeouts s) = Some id -> id < nextTimerId s) ->
  exists p s', saveWorldProgress now ge se tl fuel worldId progress false s = (Ok tt, s') /\
    match sanitizeWorldProgress now (spread_with_worldId progress w) with
    | Ok q => p = q
    | Throw _ => p = mkWP (JStr w) [] ["puzzle_1"] now CURRENT_SCHEMA_VERSION
    end /\
    progress_canonical p /\ isStorageAvailable s' = isStorageAvailable s /\
    slot s' = slot s /\ inMemoryStorage s' = inMemoryStorage s /\
    assoc_nat w (saveTimeouts s') = Some (nextTimerId s) /\
    (forall k, k <> w -> assoc_nat k (saveTimeouts s') = assoc_nat k (saveTimeouts s)) /\
    find (fun '(i, _) => Nat.eqb i (nextTimerId s)) (timers s')
      = Some (nextTimerId s, TDebouncedSave w p) /\
    (forall id, assoc_nat w (saveTimeouts s) = Some id ->
       find (fun '(i, _) => Nat.eqb i id) (timers s') = None) /\
    progressEvents s' = progressEvents s ++ [(JStr w, p)].
Proof.
  intros now ge se tl fuel worldId progress w s Hid Ht Hs.
  unfold saveWorldProgress, try_catch. rewrite Hid, bind_lift_ok.
  assert (K : forall s0 p, isStorageAvailable s0 = isStorageAvailable s ->
            slot s0 = slot s -> inMemoryStorage s0 = inMemoryStorage s ->
            saveTimeouts s0 = saveTimeouts s -> timers s0 = timers s ->
            nextTimerId s0 = nextTimerId s -> progressEvents s0 = progressEvents s ->
    exists s', (pending <- gets (fun s => assoc_nat w (saveTimeouts s)) ;;
       (match pending with Some id => clearTimeout id | None => ret tt end) ;;
       timeoutId <- setTimeout (TDebouncedSave w p) ;;
       ms <- gets saveTimeouts ;;
       modify (set_saveTimeouts (map_set ms w timeoutId)) ;;
       notifyProgressChange (JStr w) p) s0 = (Ok tt, s') /\
    isStorageAvailable s' = isStorageAvailable s /\ slot s' = slot s /\ inMemoryStorage s' = inMemoryStorage s /\
    assoc_nat w (saveTimeouts s') = Some (nextTimerId s) /\
    (forall k, k <> w -> assoc_nat k (saveTimeouts s') = assoc_nat k (saveTimeouts s)) /\
    find (fun '(i, _) => Nat.eqb i (nextTimerId s)) (timers s')
      = Some (nextTimerId s, TDebouncedSave w p) /\
    (forall id, assoc_nat w (saveTimeouts s) = Some id ->
       find (fun '(i, _) => Nat.eqb i id) (timers s') = None) /\
    progressEvents s' = progressEvents s ++ [(JStr w, p)]).
  { intros s0 p E0 E1 E2 E3 E4 E5 E6.
    unfold bind, gets, clearTimeout, setTimeout, modify, notifyProgressChange, ret.
    rewrite E3. destruct (assoc_nat w (saveTimeouts s)) as [id|] eqn:Ha; simpl.
    - eexists; split; [reflexivity|]. simpl.
      rewrite E0, E1, E2, E3, E4, E5, E6, !assoc_nat_map_set, String.eqb_refl.
      split; [reflexivity|]. split; [reflexivity|]. split; [reflexivity|]. split; [reflexivity|].
      split; [intros k Hk; rewrite assoc_nat_map_set; apply String.eqb_neq in Hk; rewrite Hk; reflexivity|].
      split; [apply find_appended, Forall_filter_timers, Ht|].
      split; [|reflexivity].
      intros id' Hid'. injection Hid' as <-. apply find_cleared.
      specialize (Hs id eq_refl). lia.
    - eexists; split; [reflexivity|]. simpl.
      rewrite E0, E1, E2, E3, E4, E5, E6, !assoc_nat_map_set, String.eqb_refl.
      split; [reflexivity|]. split; [reflexivity|]. split; [reflexivity|]. split; [reflexivity|].
      split; [intros k Hk; rewrite assoc_nat_map_set; apply String.eqb_neq in Hk; rewrite Hk; reflexivity|].
      split; [apply find_appended, Ht|].
      split; [intros; discriminate|reflexivity]. }
  match goal with |- context [bind ?m0 ?k ?st] =>
    match m0 with match sanitizeWorldProgress _ _ with _ => _ end =>
    set (M0 := m0) end end.
  assert (S0 : exists p s1, M0 s = (Ok p, s1) /\
              match sanitizeWorldProgress now (spread_with_worldId progress w) with
              | Ok q => p = q
              | Throw _ => p = mkWP (JStr w) [] ["puzzle_1"] now CURRENT_SCHEMA_VERSION
              end /\ progress_canonical p /\
              isStorageAvailable s1 = isStorageAvailable s /\ slot s1 = slot s /\
              inMemoryStorage s1 = inMemoryStorage s /\ saveTimeouts s1 = saveTimeouts s /\
              timers s1 = timers s /\ nextTimerId s1 = nextTimerId s /\
              progressEvents s1 = progressEvents s).
  { subst M0. destruct (sanitizeWorldProgress now (spread_with_worldId progress w)) as [p0|e0] eqn:Es.
    - exists p0, s. split; [reflexivity|]. split; [reflexivity|]. split; [|repeat split].
      eapply sanitize_canonical; eassumption.
    - eexists _, _. split; [reflexivity|]. split; [reflexivity|]. split; [|repeat split].
      split; [eexists; reflexivity|]. split; [constructor|apply canonical_puzzle_1]. }
  destruct S0 as (p & s1 & E0 & Sp & Cp & F0 & F1 & F2 & F3 & F4 & F5 & F6).
  unfold bind at 1. rewrite E0.
  destruct (K s1 p) as (s' & E & R); auto. exists p, s'. cbv beta iota.
  cbv beta iota in E. rewrite E. auto.
Qed.


Lemma saveWorldProgress_debounced_save_persists_h : forall now se tl f worldId progress w fs ws ms s,
  validateWorldId worldId = Ok w ->
  Forall (fun '(i, _) => i < nextTimerId s) (timers s) ->
  (forall id, assoc_nat w (saveTimeouts s) = Some id -> id < nextTimerId s) ->
  isStorageAvailable s = true -> slot s = SlotText (JObj fs) ->
  validateStorageData (JObj fs) = true -> get (JObj fs) "version" = JStr "1.0.0" ->
  get (JObj fs) "worlds" = JObj ws -> get (JObj fs) "metadata" = JObj ms ->
  (forall d, se d = None) -> (forall d, tl d = false) ->
  exists p s1 s2,
    saveWorldProgress now None se tl (S f) worldId progress false s = (Ok tt, s1) /\
    match sanitizeWorldProgress now (spread_with_worldId progress w) with
    | Ok q => p = q
    | Throw _ => p = mkWP (JStr w) [] ["puzzle_1"] now CURRENT_SCHEMA_VERSION
    end /\

    slot s1 = slot s /\ progressEvents s1 = progressEvents s ++ [(JStr w, p)] /\
    fireTimer now None se tl (S f) (nextTimerId s) s1 = (Ok tt, s2) /\
    slot s2 = SlotText (JObj (obj_set (obj_set fs "worlds"
                (JObj (obj_set ws w (storage_record (wp_solvedPuzzles p) (wp_unlockedPuzzles p)
                                                    (wp_lastUpdated p)))))
                "metadata" (JObj (obj_set ms "lastAccessed" (JNum now))))) /\
    assoc_nat w (saveTimeouts s2) = None /\ progressEvents s2 = progressEvents s1.
Proof.
  intros now se tl f worldId progress w fs ws ms s Hid Ht Hs Ha Hsl Hv Hver Hw Hm Hse Htl.
  destruct (saveWorldProgress_debounce_core now None se tl (S f) worldId progress w s Hid Ht Hs)
    as (p & s1 & E1 & Sp & Cp & A1 & S1 & _ & _ & _ & F1 & _ & P1).
  destruct p as [wid sol unl t v]. destruct Cp as ([x Hx] & Cs & Cu). simpl in Hx; subst wid.
  destruct (fireTimer_debounced_persists_h now se tl f (nextTimerId s) (nextTimerId s) w x sol unl t v
              fs ws ms s1 F1 Cs Cu) as (s2 & E2 & S2 & T2 & P2 & _);
    try congruence; auto.
  exists (mkWP (JStr x) sol unl t v), s1, s2. repeat split; auto.
Qed.

(** ** Claims on the schema, migration and integrity layers *)

(** C3 (evaluation at the failing input): [repairStorageData] keeps a
    [version] that is a string even when it is the empty string, and
    [validateStorageData] rejects a document whose [version] is falsy, so the
    repaired document of [{version: ""}] is not valid. *)
Theorem repairStorageData_empty_version_invalid : forall now,
  repairStorageData now (JObj [("version", JStr "")]) =
    JObj [("version", JStr "");
          ("worlds", JObj []);
          ("metadata", JObj [("createdAt", JNum now); ("lastAccessed", JNum now)])]
  /\ validateStorageData (repairStorageData now (JObj [("version", JStr "")])) = false.
Proof. intros now; split; reflexivity. Qed.

(** C5 counterexample: a non-object input ([null]) makes
    [sanitizeWorldProgress] throw, although its [worldId] is not the
    reason. *)
Lemma sanitizeWorldProgress_null_throws :
  sanitizeWorldProgress 0 JNull = Throw (Error "Progress must be an object").
Proof. reflexivity. Qed.

(** C5 (amended): [sanitizeWorldProgress] returns exactly when its input
    is an object whose [worldId] (or [''] when falsy) passes
    [validateWorldId]; malformed puzzle collections and non-numeric
    timestamps never make it fail; whenever it returns, [puzzle_1] is in
    [unlockedPuzzles]. *)
Theorem sanitizeWorldProgress_total_on_objects : forall now progress,
  ((exists p, sanitizeWorldProgress now progress = Ok p) <->
     is_obj progress = true /\
     exists w, validateWorldId (or_empty (get progress "worldId")) = Ok w)
  /\ (forall p, sanitizeWorldProgress now progress = Ok p ->
                In "puzzle_1" (wp_unlockedPuzzles p)).
Proof.
  intros now progress; unfold sanitizeWorldProgress.
  destruct (is_obj progress); simpl.
  2:{ split; [split; [intros [p Hp]; discriminate | intros [H _]; discriminate]
             | intros p Hp; discriminate]. }
  destruct (validateWorldId (or_empty (get progress "worldId"))) as [w|e].
  2:{ split; [split; [intros [p Hp]; discriminate
                     | intros [_ [w Hw]]; discriminate] | intros p Hp; discriminate]. }
  split.
  - split; [intros _; eauto | intros _; eauto].
  - intros p Hp; injection Hp as <-; cbn [wp_unlockedPuzzles].
    destruct (truthy (get progress "unlockedPuzzles")); [|simpl; auto].
    destruct (iter (get progress "unlockedPuzzles")) as [l|]; [|simpl; auto].
    destruct (map_validatePuzzleId (filter keep_id l)); [|simpl; auto].
    apply new_Set_In; left; reflexivity.
Qed.

(** C6 counterexample: a well-formed progress whose solved set holds
    ["puzzle 2"] comes back holding ["puzzle2"] only. *)
Lemma roundtrip_sanitizes_ids :
  let p := JObj [("worldId", JStr "w1");
                 ("solvedPuzzles", JSet [JStr "puzzle 2"]);
                 ("unlockedPuzzles", JSet [JStr "puzzle_1"]);
                 ("lastUpdated", JNum 0)] in
  validateWorldProgress p = true /\
  exists rec r,
    transformToStorageFormat p = Ok rec /\
    transformFromStorageFormat (get p "worldId") rec = Ok r /\
    wp_solvedPuzzles r = ["puzzle2"] /\
    ~ (forall s, In s (wp_solvedPuzzles r) <-> In (JStr s) [JStr "puzzle 2"]).
Proof.
  simpl. split; [reflexivity|].
  eexists; eexists; split; [reflexivity|]; split; [reflexivity|]; split; [reflexivity|].
  intros H. destruct (proj1 (H "puzzle2") (or_introl eq_refl)) as [Hc|[]].
  discriminate.
Qed.

(** C6 (amended): for a well-formed progress whose [worldId] and puzzle
    entries are already in canonical form (sanitization leaves them as they
    are), the round trip through the storage format gives back the same
    [worldId] and [lastUpdated] and set-equal puzzle collections. *)
Theorem roundtrip_canonical : forall p w sol unl,
  validateWorldProgress p = true ->
  get p "worldId" = JStr w -> validateWorldId (JStr w) = Ok w ->
  iter (get p "solvedPuzzles") = Some sol ->
  iter (get p "unlockedPuzzles") = Some unl ->
  Forall canonical_puzzle sol -> Forall canonical_puzzle unl ->
  exists rec r,
    transformToStorageFormat p = Ok rec /\
    transformFromStorageFormat (get p "worldId") rec = Ok r /\
    wp_worldId r = get p "worldId" /\
    JNum (wp_lastUpdated r) = get p "lastUpdated" /\
    (forall s, In s (wp_solvedPuzzles r) <-> In (JStr s) sol) /\
    (forall s, In s (wp_unlockedPuzzles r) <-> In (JStr s) unl).
Proof.
  intros p w sol unl Hv Hw Hwc Hs Hu Cs Cu.
  destruct (canonical_list sol Cs) as [ss [-> Hss]].
  destruct (canonical_list unl Cu) as [us [-> Hus]].
  assert (Ht : exists t, get p "lastUpdated" = JNum t).
  { unfold validateWorldProgress in Hv.
    destruct (get p "lastUpdated"); simpl in Hv;
      repeat rewrite andb_false_r in Hv; try discriminate; eauto. }
  destruct Ht as [t Ht].
  exists (storage_record ss us t).
  exists (mkWP (JStr w) (new_Set ss) (new_Set us) t CURRENT_SCHEMA_VERSION).
  unfold transformToStorageFormat; rewrite Hv, Hs, Hu; simpl negb; cbv beta iota.
  rewrite Hss, Hus, Ht.
  split; [reflexivity|].
  unfold transformFromStorageFormat; rewrite Hw, storage_record_valid; simpl negb; cbv beta iota.
  rewrite Hwc, storage_record_solved, storage_record_unlocked, storage_record_lastUpdated, Hss, Hus.
  split; [reflexivity|]. split; [reflexivity|]. split; [reflexivity|].
  split; intros s; simpl; rewrite new_Set_In, In_map_JStr; tauto.
Qed.

(** C7: [migrateToCurrentVersion] returns its argument itself when the
    document's version is ["1.0.0"], and a fresh default document with no
    worlds for any other version (a missing one included) and for
    non-document input. *)
Theorem migrateToCurrentVersion_spec : forall now data,
  (is_obj data = true -> get data "version" = JStr "1.0.0" ->
     migrateToCurrentVersion now data = data)
  /\ (is_obj data = true -> get data "version" <> JStr "1.0.0" ->
        migrateToCurrentVersion now data = createDefaultStorageData now)
  /\ (is_obj data = false -> migrateToCurrentVersion now data = createDefaultStorageData now)
  /\ get (createDefaultStorageData now) "worlds" = JObj [].
Proof.
  intros now data; unfold migrateToCurrentVersion, isMigrationNeeded.
  split; [|split; [|split]].
  - intros Ho Hv; rewrite Ho, Hv; reflexivity.
  - intros Ho Hv; rewrite Ho; simpl negb; cbv iota.
    unfold version_or_zero, CURRENT_SCHEMA_VERSION.
    destruct (truthy (get data "version")); [|reflexivity].
    assert (Hs : same_value_zero (get data "version") (JStr "1.0.0") = false).
    { destruct (get data "version"); try reflexivity; simpl.
      destruct (String.eqb s "1.0.0") eqn:E1; [|reflexivity].
      apply String.eqb_eq in E1; subst; contradiction. }
    rewrite Hs; reflexivity.
  - intros Ho; rewrite Ho; reflexivity.
  - reflexivity.
Qed.

(** C8: on a valid document at the current version, a world record with
    [solvedPuzzles = ["a","a"]] and [unlockedPuzzles = ["a"]] yields a
    duplicate-solved issue for that world and no missing-unlock issue for
    it; a record with [solvedPuzzles = ["b"]] and [unlockedPuzzles = ["a"]]
    yields a missing-unlock issue for ["b"]; [checkIntegrity] always returns
    a list of issues (it never throws, and only reads its argument), and a
    structurally invalid document gives the single top-level issue.
    World keys are distinct, as the keys of a JavaScript object are. *)
Theorem checkIntegrity_detects :
  (forall data w rec,
     validateStorageData data = true -> get data "version" = JStr "1.0.0" ->
     NoDup (map fst (entries (get data "worlds"))) ->
     In (w, rec) (entries (get data "worlds")) ->
     get rec "solvedPuzzles" = JArr [JStr "a"; JStr "a"] ->
     get rec "unlockedPuzzles" = JArr [JStr "a"] ->
     exists issues, checkIntegrity data = Ok issues /\
       In (DuplicateSolved w) issues /\ forall p, ~ In (SolvedNotUnlocked p w) issues)
  /\ (forall data w rec,
     validateStorageData data = true -> get data "version" = JStr "1.0.0" ->
     In (w, rec) (entries (get data "worlds")) ->
     get rec "solvedPuzzles" = JArr [JStr "b"] ->
     get rec "unlockedPuzzles" = JArr [JStr "a"] ->
     exists issues, checkIntegrity data = Ok issues /\
       In (SolvedNotUnlocked (JStr "b") w) issues)
  /\ (forall data, exists issues, checkIntegrity data = Ok issues)
  /\ (forall data, validateStorageData data = false -> checkIntegrity data = Ok [InvalidStructure]).
Proof.
  split; [|split; [|split]].
  - intros data w rec Hv Hver Hnd Hin Hs Hu.
    unfold checkIntegrity; rewrite Hv; simpl negb; cbv beta iota zeta.
    destruct (check_worlds_valid _ (validateStorageData_records data Hv)) as [is Hc].
    rewrite Hc. eexists; split; [reflexivity|]. split.
    + apply in_app_iff; right.
      apply (proj2 (check_worlds_In _ _ Hc _)).
      exists w, rec; eexists; split; [exact Hin|].
      split; [unfold check_world; rewrite Hs, Hu; reflexivity|].
      cbv zeta; rewrite !in_app_iff; right; right; left; simpl; auto.
    + intros p Hp; apply in_app_iff in Hp as [Hp|Hp].
      * no_solved_issue Hp.
      * apply (proj1 (check_worlds_In _ _ Hc _)) in Hp as (k & v & is1 & Hkv & Hcw & Hi).
        pose proof (check_world_names _ _ _ _ _ Hcw Hi) as ->.
        rewrite (NoDup_fst_unique _ _ _ _ Hnd Hkv Hin) in Hcw.
        unfold check_world in Hcw; rewrite Hs, Hu in Hcw.
        injection Hcw as <-. no_solved_issue Hi.
  - intros data w rec Hv Hver Hin Hs Hu.
    unfold checkIntegrity; rewrite Hv; simpl negb; cbv beta iota zeta.
    destruct (check_worlds_valid _ (validateStorageData_records data Hv)) as [is Hc].
    rewrite Hc. eexists; split; [reflexivity|].
    apply in_app_iff; right.
    apply (proj2 (check_worlds_In _ _ Hc _)).
    exists w, rec; eexists; split; [exact Hin|].
    split; [unfold check_world; rewrite Hs, Hu; reflexivity|].
    cbv zeta; rewrite !in_app_iff; right; right; right; right; simpl; auto.
  - intros data; unfold checkIntegrity.
    destruct (validateStorageData data) eqn:Hv; simpl negb; cbv beta iota zeta; [|eauto].
    destruct (check_worlds_valid _ (validateStorageData_records data Hv)) as [is ->]; eauto.
  - intros data Hv; unfold checkIntegrity; rewrite Hv; reflexivity.
Qed.

(** C10: on every valid document whose version is not ["1.0.0"],
    [checkIntegrity] reports a version mismatch, whatever its worlds. *)
Theorem checkIntegrity_version_mismatch : forall data,
  validateStorageData data = true -> get data "version" <> JStr "1.0.0" ->
  exists issues, checkIntegrity data = Ok issues /\ issues <> [] /\
    In (VersionMismatch (get data "version")) issues.
Proof.
  intros data Hv Hver.
  unfold checkIntegrity; rewrite Hv; simpl negb; cbv beta iota zeta.
  destruct (check_worlds_valid _ (validateStorageData_records data Hv)) as [is ->].
  destruct (validateStorageData_version data Hv) as [v Hvs].
  assert (Hm : isMigrationNeeded (get data "version") = true).
  { rewrite Hvs; unfold isMigrationNeeded, CURRENT_SCHEMA_VERSION; simpl.
    destruct (String.eqb v "1.0.0") eqn:E; [|reflexivity].
    apply String.eqb_eq in E; subst; contradiction. }
  rewrite Hm. eexists; split; [reflexivity|]. split; [discriminate|left; reflexivity].
Qed.

(* ================================================================== *)
(** ** Claims on the progress service *)

(** C1 (evaluation of both paths): with [immediate = true],
    [saveWorldProgress] sends nothing to the progress subscribers, for every
    argument, medium and state: it returns right after
    [_saveWorldProgressImmediate], which never notifies.  With
    [immediate = false] and a usable world id, the same call returns
    normally after sending one notification for the sanitized id. *)
Theorem saveWorldProgress_immediate_no_notification :
  (forall now ge se tl fuel worldId progress s,
    progressEvents (snd (saveWorldProgress now ge se tl fuel worldId progress true s))
    = progressEvents s)
  /\ (forall now ge se tl fuel worldId progress s w,
    validateWorldId worldId = Ok w ->
    exists p r, saveWorldProgress now ge se tl fuel worldId progress false s = (Ok tt, r) /\
      progressEvents r = progressEvents s ++ [(JStr w, p)]).
Proof.
  split.
  - intros now ge se tl fuel worldId progress.
    change (keeps_events (saveWorldProgress now ge se tl fuel worldId progress true)).
    destruct (storage_keeps_events now ge se tl fuel) as (H1 & H2 & _).
    unfold saveWorldProgress, _saveWorldProgressImmediate; cbv beta iota. keeps.
  - intros now ge se tl fuel worldId progress s w Hid.
    unfold saveWorldProgress. rewrite Hid. run.
    destruct (sanitizeWorldProgress now (spread_with_worldId progress w)); simpl;
      destruct (assoc_nat w _); simpl; do 2 eexists; split; reflexivity.
Qed.

(** C2 (evaluation at the failing input): a medium holding a valid
    current-version document whose record for ["w1"] has an empty
    [unlockedPuzzles] makes [getWorldProgress("w1")] return a progress
    whose unlocked set is empty: [transformFromStorageFormat] does not add
    ["puzzle_1"]. *)
Theorem getWorldProgress_empty_unlocked : forall now se tl fuel,
  getWorldProgress now None se tl (S fuel) (JStr "w1") (freshService (SlotText doc_empty_unlocked))
  = (Ok (mkWP (JStr "w1") [] [] 0 CURRENT_SCHEMA_VERSION),
     freshService (SlotText doc_empty_unlocked))
  /\ validateStorageData doc_empty_unlocked = true.
Proof. intros; split; reflexivity. Qed.

(** C4: [getWorldProgress] never throws: for every argument, medium and
    state it returns a progress object; when the world id is unusable,
    that object is the last-resort default, whose unlocked set is
    [{"puzzle_1"}]. *)
Theorem getWorldProgress_total : forall now ge se tl fuel worldId s,
  exists p, fst (getWorldProgress now ge se tl fuel worldId s) = Ok p /\
    (forall e, validateWorldId worldId = Throw e ->
       p = mkWP (js_or worldId (JStr "unknown")) [] ["puzzle_1"] now CURRENT_SCHEMA_VERSION).
Proof.
  intros now ge se tl fuel worldId s. unfold getWorldProgress, try_catch.
  match goal with |- context [match ?m s with _ => _ end] =>
    destruct (m s) as [[a|err] s'] eqn:Hm end.
  - exists a; split; [reflexivity|]. intros e He.
    rewrite He in Hm. discriminate Hm.
  - unfold bind, notifyErrorListeners, modify, ret; simpl.
    destruct (createDefaultWorldProgress now worldId) as [p|e] eqn:Hd; simpl.
    + exists p; split; [reflexivity|]. intros e He.
      unfold createDefaultWorldProgress in Hd; rewrite He in Hd; discriminate.
    + eexists; split; [reflexivity|]. intros e' He'; reflexivity.
Qed.

(** C9 counterexample: when the stored document is valid but written at
    version ["0.9.0"], [resetWorldProgress("a")] first migrates it to the
    empty default inside [getStorageData], so the document it writes has
    lost world ["b"]. *)
Lemma resetWorldProgress_drops_other_worlds :
  validateStorageData doc_old_version = true /\
  get (get doc_old_version "worlds") "b" = storage_record ["puzzle_1"] ["puzzle_1"] 0 /\
  exists s', resetWorldProgress 5 None (fun _ => None) (fun _ => false) 10 (JStr "a")
               (freshService (SlotText doc_old_version)) = (Ok tt, s') /\
    exists D, slot s' = SlotText D /\ get (get D "worlds") "b" = JUndef.
Proof.
  split; [reflexivity|]. split; [reflexivity|].
  eexists; split; [reflexivity|]. eexists; split; [reflexivity|]. reflexivity.
Qed.

(** C9 (amended): for a usable world id [w] other than ["__proto__"] (for
    which [data.worlds[w] = resetData] sets the prototype of [data.worlds]
    instead of adding a record) and a medium holding a valid
    current-version document whose [worlds] and [metadata] are plain
    objects, [resetWorldProgress] builds the document in which [w]'s record
    is the reset record and every other world's record is unchanged.  If
    the medium accepts writes, the call returns normally after writing that
    document and sending one notification with the reset progress.  If the
    medium refuses the write with a [SecurityError], the call still returns
    normally: the document goes to in-memory storage, the medium is left
    as it was, storage is marked unavailable, and the same notification is
    sent. *)
Theorem resetWorldProgress_current_document : forall now fuel worldId w fs ws ms s,
  validateWorldId worldId = Ok w -> w <> "__proto__" ->
  validateStorageData (JObj fs) = true -> get (JObj fs) "version" = JStr "1.0.0" ->
  get (JObj fs) "worlds" = JObj ws -> get (JObj fs) "metadata" = JObj ms ->
  isStorageAvailable s = true -> slot s = SlotText (JObj fs) ->
  let resetProgress := mkWP (JStr w) [] ["puzzle_1"] now CURRENT_SCHEMA_VERSION in
  exists D,
    get (get D "worlds") w = storage_record [] ["puzzle_1"] now /\
    (forall k, k <> w -> get (get D "worlds") k = get (get (JObj fs) "worlds") k) /\
    get D "version" = JStr "1.0.0" /\ validateStorageData D = true /\
    (forall se tl, (forall d, se d = None) -> (forall d, tl d = false) ->
       exists s', resetWorldProgress now None se tl (S (S (S (S (S fuel))))) worldId s
                  = (Ok tt, s') /\
         slot s' = SlotText D /\
         progressEvents s' = progressEvents s ++ [(JStr w, resetProgress)]) /\
    (forall se tl, (forall d, se d = Some SecurityErrorExc) -> (forall d, tl d = false) ->
       exists s', resetWorldProgress now None se tl (S (S (S (S (S fuel))))) worldId s
                  = (Ok tt, s') /\
         slot s' = slot s /\ isStorageAvailable s' = false /\ inMemoryStorage s' = D /\
         progressEvents s' = progressEvents s ++ [(JStr w, resetProgress)]).
Proof.
  intros now fuel worldId w fs ws ms s Hid _ Hv Hver Hw Hm Ha Hs resetProgress.
  pose proof (valid_update now fs ws ms w Hv Hw Hm) as Hv2.
  exists (JObj (obj_set (obj_set fs "worlds" (JObj (obj_set ws w (storage_record [] ["puzzle_1"] now))))
                   "metadata" (JObj (obj_set ms "lastAccessed" (JNum now))))).
  cbn [get entries] in Hw, Hm, Hver |- *.
  rewrite !assoc_obj_set; simpl String.eqb; cbv iota.
  rewrite Hw, Hver. cbn [get entries]. rewrite assoc_obj_set, String.eqb_refl.
  split; [reflexivity|]. split.
  { intros k Hk. apply String.eqb_neq in Hk. rewrite assoc_obj_set, Hk. reflexivity. }
  split; [reflexivity|]. split; [exact Hv2|].
  unfold resetWorldProgress. rewrite Hid.
  remember (S (S (S (S (S fuel))))) as g eqn:Hg.
  split.
  - intros se tl Hse Htl. run.
    subst g. rewrite (getStorageData_current now se tl _ 0 s fs) by auto.
    remember (S (S (S (S (S fuel))))) as g eqn:Hg.
    unfold put_in, getp. cbn [get entries]. rewrite Hw. simpl. rewrite assoc_obj_set. simpl. rewrite Hm. simpl.
    subst g.
    match goal with |- context [saveStorageData _ _ _ _ _ ?d _ _ ?s1] =>
      destruct (saveStorageData_written now None se tl (S (S (S (S fuel)))) d 0 s1) as (s2 & E & H1 & H2) end;
      auto.
    rewrite E. simpl. eexists; split; [reflexivity|]. split; [exact H1|]. simpl. rewrite H2. reflexivity.
  - intros se tl Hse Htl. run.
    subst g. rewrite (getStorageData_current now se tl _ 0 s fs) by auto.
    remember (S (S (S (S (S fuel))))) as g eqn:Hg.
    unfold put_in, getp. cbn [get entries]. rewrite Hw. simpl. rewrite assoc_obj_set. simpl. rewrite Hm. simpl.
    subst g.
    match goal with |- context [saveStorageData _ _ _ _ _ ?d _ _ ?s1] =>
      destruct (saveStorageData_security now se tl fs Hv Hver fuel d s1) as (s2 & E & H1 & H2 & H3 & H4) end;
      auto.
    rewrite E. simpl. eexists; split; [reflexivity|]. simpl. rewrite H4; auto.
Qed.

(* ================================================================== *)
(* ================================================================== *)
(** ** Further properties of the service and the data layer *)

(** X1: [repairStorageData] returns a document that [validateStorageData]
    rejects exactly when its input is an object whose [version] is the
    empty string. *)
Theorem repairStorageData_rejected_iff : forall now data,
  validateStorageData (repairStorageData now data) = false <->
  is_obj data = true /\ get data "version" = JStr "".
Proof. exact repairStorageData_valid_iff. Qed.

(** X2: [migrateWorldData] always returns a record that
    [validateStorageWorldData] accepts. *)
Theorem migrateWorldData_always_valid : forall now wd,
  validateStorageWorldData (migrateWorldData now wd) = true.
Proof. exact migrateWorldData_valid_h. Qed.

(** X3: a puzzle array entry that is a non-blank string with no letter,
    digit, underscore or hyphen makes [migrateWorldData] throw the whole
    record away for the default one, and makes
    [transformFromStorageFormat] throw. *)
Theorem unusable_entry_discards_record : forall now w wd xs x,
  (get wd "solvedPuzzles" = JArr xs \/ get wd "unlockedPuzzles" = JArr xs) ->
  In x xs -> unusable_entry x ->
  migrateWorldData now wd = default_world_record now /\
  exists e, transformFromStorageFormat w wd = Throw e.
Proof.
  intros now w wd xs x Hxs Hin Hu. split.
  - exact (migrateWorldData_unusable now wd xs x Hxs Hin Hu).
  - exact (transformFrom_unusable w wd xs x Hxs Hin Hu).
Qed.

(** X4: the identifiers returned by [validateWorldId] and
    [validatePuzzleId] are returned unchanged when validated again. *)
Theorem validated_ids_are_fixed_points :
  (forall v w, validateWorldId v = Ok w -> validateWorldId (JStr w) = Ok w) /\
  (forall v p, validatePuzzleId v = Ok p -> validatePuzzleId (JStr p) = Ok p).
Proof. split; [exact validateWorldId_fixed | exact validatePuzzleId_fixed]. Qed.

(** X5: a document on which [checkIntegrity] reports no issue is valid, is
    at version ["1.0.0"], and is left as it is by [migrateToCurrentVersion]. *)
Theorem checkIntegrity_clean_is_current : forall now data,
  checkIntegrity data = Ok [] ->
  validateStorageData data = true /\ get data "version" = JStr "1.0.0" /\
  migrateToCurrentVersion now data = data.
Proof.
  intros now data H. split; [|split].
  - exact (checkIntegrity_clean_valid data H).
  - pose proof (checkIntegrity_clean_valid data H) as Hv.
    unfold checkIntegrity in H. rewrite Hv in H. simpl in H.
    destruct (isMigrationNeeded (get data "version")) eqn:Hm.
    + destruct (check_worlds _); discriminate.
    + destruct (validateStorageData_version data Hv) as [v Hver].
      rewrite Hver in *. unfold isMigrationNeeded in Hm. simpl in Hm.
      destruct (String.eqb v CURRENT_SCHEMA_VERSION) eqn:E; [|discriminate].
      apply String.eqb_eq in E; subst. reflexivity.
  - exact (checkIntegrity_clean_current now data H).
Qed.

(** X6: With storage available and nothing stored, [initializeStorage] writes
    the default document for [now] through [saveStorageData] and schedules
    no retry; nothing is reported to the error listeners. *)
Theorem initializeStorage_empty_writes_default : forall now se tl f s,
  isStorageAvailable s = true -> slot s = SlotEmpty ->
  se (createDefaultStorageData now) = None -> tl (createDefaultStorageData now) = false ->
  initializeStorage now None se tl (S f) s = (Ok None, written (createDefaultStorageData now) s).
Proof. exact initializeStorage_empty_h. Qed.

(** X7: With a stored document on which [checkIntegrity] reports no issue,
    [initializeStorage] writes the same document back with only
    [metadata.lastAccessed] set to [now], and schedules no retry. *)
Theorem initializeStorage_clean_touches_metadata : forall now se tl f fs ms s,
  isStorageAvailable s = true -> slot s = SlotText (JObj fs) ->
  checkIntegrity (JObj fs) = Ok [] -> get (JObj fs) "metadata" = JObj ms ->
  let touched := JObj (obj_set fs "metadata" (JObj (obj_set ms "lastAccessed" (JNum now)))) in
  se touched = None -> tl touched = false ->
  initializeStorage now None se tl (S f) s = (Ok None, written touched s).
Proof. exact initializeStorage_clean_h. Qed.

(** X8: With a valid stored document at a version other than ['1.0.0'],
    [initializeStorage] writes [repairStorageData] of it, which keeps the
    old version, and reports one [DATA_CORRUPTION] error whose message lists
    the integrity issues, the version mismatch first. *)
Theorem initializeStorage_old_version_repairs : forall now se tl f data s,
  isStorageAvailable s = true -> slot s = SlotText data ->
  validateStorageData data = true -> get data "version" <> JStr "1.0.0" ->
  se (repairStorageData now data) = None -> tl (repairStorageData now data) = false ->
  exists is, checkIntegrity data = Ok (VersionMismatch (get data "version") :: is) /\
  initializeStorage now None se tl (S f) s =
    (Ok None, push_error (ProgressError DATA_CORRUPTION
                ("Data integrity issues: " ++ String.concat ", "
                   (map issue_text (VersionMismatch (get data "version") :: is)))%string)
                (written (repairStorageData now data) s)) /\
  get (repairStorageData now data) "version" = get data "version".
Proof. exact initializeStorage_old_version_h. Qed.

(** X9: [findChangedWorlds] of a valid document (with distinct world keys)
    against itself is empty. *)
Theorem findChangedWorlds_identical_empty : forall d,
  validateStorageData d = true -> NoDup (map fst (entries (get d "worlds"))) ->
  findChangedWorlds d d = Ok [].
Proof. exact findChangedWorlds_same_h. Qed.


(** X12: When the new document differs from a valid old one only in the record of
    world [w], and that record differs in [lastUpdated], [solvedPuzzles] or
    [unlockedPuzzles], the listener sends exactly one notification, for [w]
    with its record read through [transformFromStorageFormat], and changes
    nothing else. *)
Theorem storageEventListener_one_world_changed : forall now ge se tl fuel oldData newData ows w r p s,
  get oldData "worlds" = JObj ows -> get newData "worlds" = JObj (obj_set ows w r) ->
  NoDup (map fst ows) -> forallb (fun '(_, wd) => validateStorageWorldData wd) ows = true ->
  validateStorageWorldData r = true ->
  (get r "lastUpdated" <> get (assoc w ows) "lastUpdated" \/
   get r "solvedPuzzles" <> get (assoc w ows) "solvedPuzzles" \/
   get r "unlockedPuzzles" <> get (assoc w ows) "unlockedPuzzles") ->
  transformFromStorageFormat (JStr w) r = Ok p ->
  isUpdatingFromStorageEvent s = false ->
  findChangedWorlds oldData newData = Ok [w] /\
  storageEventListener now ge se tl fuel (Some STORAGE_KEY) (SlotText newData) (SlotText oldData) s
  = (Ok tt, push_progress (JStr w, p) s).
Proof. exact storageEventListener_one_h. Qed.

(** X14: When another tab removed the document (no new value) and nothing is
    stored, the listener goes through [handleCrossTabStorageCleared]: its
    read of the storage writes the default document back, and, the default
    having no worlds, no progress notification is sent. *)
Theorem storageEventListener_cleared_writes_default : forall now se tl f ov s,
  isStorageAvailable s = true -> slot s = SlotEmpty -> isUpdatingFromStorageEvent s = false ->
  se (createDefaultStorageData now) = None -> tl (createDefaultStorageData now) = false ->
  ov <> SlotGarbage ->
  exists s', storageEventListener now None se tl (S (S f)) (Some STORAGE_KEY) SlotEmpty ov s
             = (Ok tt, s') /\
    slot s' = SlotText (createDefaultStorageData now) /\ progressEvents s' = progressEvents s.
Proof. exact storageEventListener_cleared_h. Qed.

(** X15: Reading a world that the valid current document does not contain,
    whose name is not that of a member of [Object.prototype], returns the
    default progress (nothing solved, only ['puzzle_1'] unlocked,
    [lastUpdated = now]) and leaves the state unchanged: nothing is written
    or reported. *)
Theorem getWorldProgress_missing_world_default : forall now se tl f worldId w fs ws s,
  inherited_name w = false ->
  isStorageAvailable s = true -> slot s = SlotText (JObj fs) ->
  validateStorageData (JObj fs) = true -> get (JObj fs) "version" = JStr "1.0.0" ->
  get (JObj fs) "worlds" = JObj ws -> validateWorldId worldId = Ok w ->
  ~ In w (map fst ws) ->
  getWorldProgress now None se tl (S f) worldId s =
    (Ok (mkWP (JStr w) [] ["puzzle_1"] now CURRENT_SCHEMA_VERSION), s).
Proof.
  intros now se tl f worldId w fs ws s _.
  exact (getWorldProgress_missing_world_h now se tl f worldId w fs ws s).
Qed.

(** X16: Reading a world whose stored record has a puzzle entry that sanitizes to
    the empty string returns the default progress and reports one error;
    nothing is written. *)
Theorem getWorldProgress_unusable_entry_default : forall now se tl f worldId w fs ws xs x s,
  isStorageAvailable s = true -> slot s = SlotText (JObj fs) ->
  validateStorageData (JObj fs) = true -> get (JObj fs) "version" = JStr "1.0.0" ->
  get (JObj fs) "worlds" = JObj ws -> validateWorldId worldId = Ok w ->
  (get (assoc w ws) "solvedPuzzles" = JArr xs \/ get (assoc w ws) "unlockedPuzzles" = JArr xs) ->
  In x xs -> unusable_entry x ->
  exists e, getWorldProgress now None se tl (S f) worldId s =
    (Ok (mkWP (JStr w) [] ["puzzle_1"] now CURRENT_SCHEMA_VERSION), push_error e s).
Proof. exact getWorldProgress_unusable_entry_h. Qed.

(** X17: [isPuzzleSolved] never throws. For a puzzle id that [validatePuzzleId]
    rejects it returns [false] and reports one [VALIDATION_ERROR]; otherwise
    it returns whether the sanitized id is among the solved puzzles that
    [getWorldProgress] returns, with the same state. *)
Theorem isPuzzleSolved_membership : forall now ge se tl fuel worldId puzzleId s,
  match validatePuzzleId puzzleId with
  | Throw _ => isPuzzleSolved now ge se tl fuel worldId puzzleId s =
      (Ok false, push_error (ProgressError VALIDATION_ERROR "Failed to check if puzzle is solved") s)
  | Ok q => exists p s', getWorldProgress now ge se tl fuel worldId s = (Ok p, s') /\
      isPuzzleSolved now ge se tl fuel worldId puzzleId s =
        (Ok (existsb (String.eqb q) (wp_solvedPuzzles p)), s')
  end.
Proof. exact isPuzzleSolved_answers. Qed.

(** X18: [isPuzzleUnlocked] never throws. For a puzzle id that [validatePuzzleId]
    rejects it returns [false] and reports one [VALIDATION_ERROR]; otherwise
    it returns whether the sanitized id is among the unlocked puzzles that
    [getWorldProgress] returns, with the same state. *)
Theorem isPuzzleUnlocked_membership : forall now ge se tl fuel worldId puzzleId s,
  match validatePuzzleId puzzleId with
  | Throw _ => isPuzzleUnlocked now ge se tl fuel worldId puzzleId s =
      (Ok false, push_error (ProgressError VALIDATION_ERROR "Failed to check if puzzle is unlocked") s)
  | Ok q => exists p s', getWorldProgress now ge se tl fuel worldId s = (Ok p, s') /\
      isPuzzleUnlocked now ge se tl fuel worldId puzzleId s =
        (Ok (existsb (String.eqb q) (wp_unlockedPuzzles p)), s')
  end.
Proof. exact isPuzzleUnlocked_answers. Qed.

(** X19: [getUnlockedPuzzles] never throws and returns the unlocked puzzles of
    what [getWorldProgress] returns, with the same state. *)
Theorem getUnlockedPuzzles_of_progress : forall now ge se tl fuel worldId s,
  exists p s', getWorldProgress now ge se tl fuel worldId s = (Ok p, s') /\
    getUnlockedPuzzles now ge se tl fuel worldId s = (Ok (wp_unlockedPuzzles p), s').
Proof. exact getUnlockedPuzzles_answers. Qed.

(** X20: [flushPendingSaves] empties [saveTimeouts] and clears every pending
    debounced-save timer, without writing or notifying anything: a cancelled
    timer that would fire later runs nothing, so the pending progress is
    dropped. *)
Theorem flushPendingSaves_cancels_all : forall now ge se tl fuel s,
  exists s', flushPendingSaves s = (Ok tt, s') /\
    saveTimeouts s' = [] /\
    timers s' = filter (fun '(i, _) => negb (existsb (Nat.eqb i) (map snd (saveTimeouts s))))
                       (timers s) /\
    slot s' = slot s /\ inMemoryStorage s' = inMemoryStorage s /\
    progressEvents s' = progressEvents s /\ errorEvents s' = errorEvents s /\
    (forall w id, In (w, id) (saveTimeouts s) ->
       fireTimer now ge se tl fuel id s' = (Ok tt, s')).
Proof. exact flushPendingSaves_discards_h. Qed.

(** X21: A debounced [saveWorldProgress] of a usable world id [w] returns
    normally without touching the storage.  The progress [p] it uses is
    what [sanitizeWorldProgress] returns for [{...progress, worldId: w}]
    (the default progress of [w] if that throws).  It notifies [p] at once,
    cancels the world's previous pending save, and schedules one save of
    [p] under the world's entry in [saveTimeouts], other worlds' entries
    unchanged. *)
Theorem saveWorldProgress_debounce_schedules : forall now ge se tl fuel worldId progress w s,
  validateWorldId worldId = Ok w ->
  Forall (fun '(i, _) => i < nextTimerId s) (timers s) ->
  (forall id, assoc_nat w (saveTimeouts s) = Some id -> id < nextTimerId s) ->
  exists p s', saveWorldProgress now ge se tl fuel worldId progress false s = (Ok tt, s') /\
    match sanitizeWorldProgress now (spread_with_worldId progress w) with
    | Ok q => p = q
    | Throw _ => p = mkWP (JStr w) [] ["puzzle_1"] now CURRENT_SCHEMA_VERSION
    end /\
    progress_canonical p /\ isStorageAvailable s' = isStorageAvailable s /\
    slot s' = slot s /\ inMemoryStorage s' = inMemoryStorage s /\
    assoc_nat w (saveTimeouts s') = Some (nextTimerId s) /\
    (forall k, k <> w -> assoc_nat k (saveTimeouts s') = assoc_nat k (saveTimeouts s)) /\
    find (fun '(i, _) => Nat.eqb i (nextTimerId s)) (timers s')
      = Some (nextTimerId s, TDebouncedSave w p) /\
    (forall id, assoc_nat w (saveTimeouts s) = Some id ->
       find (fun '(i, _) => Nat.eqb i id) (timers s') = None) /\
    progressEvents s' = progressEvents s ++ [(JStr w, p)].
Proof. exact saveWorldProgress_debounce_core. Qed.

(** X22: When a debounced-save timer of world [w] fires, it returns normally (a
    failed save is only reported) and removes [w]'s entry from
    [saveTimeouts], other entries unchanged. *)
Theorem fireTimer_debounced_clears_entry : forall now ge se tl fuel id i w p s,
  find (fun '(j, _) => Nat.eqb j id) (timers s) = Some (i, TDebouncedSave w p) ->
  exists s', fireTimer now ge se tl fuel id s = (Ok tt, s') /\
    assoc_nat w (saveTimeouts s') = None /\
    (forall k, k <> w -> assoc_nat k (saveTimeouts s') = assoc_nat k (saveTimeouts s)).
Proof. exact fireTimer_debounced_h. Qed.

(** X23: On a valid current document, a debounced save of a world [w] other
    than ["__proto__"] followed by its timer writes the document in which
    [w]'s record holds the progress [sanitizeWorldProgress] returns for
    [{...progress, worldId: w}] and [metadata.lastAccessed] is [now], sends
    no second notification, and leaves no pending entry for [w]. *)
Theorem debounced_save_persists : forall now se tl f worldId progress w fs ws ms s,
  w <> "__proto__" ->
  validateWorldId worldId = Ok w ->
  Forall (fun '(i, _) => i < nextTimerId s) (timers s) ->
  (forall id, assoc_nat w (saveTimeouts s) = Some id -> id < nextTimerId s) ->
  isStorageAvailable s = true -> slot s = SlotText (JObj fs) ->
  validateStorageData (JObj fs) = true -> get (JObj fs) "version" = JStr "1.0.0" ->
  get (JObj fs) "worlds" = JObj ws -> get (JObj fs) "metadata" = JObj ms ->
  (forall d, se d = None) -> (forall d, tl d = false) ->
  exists p s1 s2,
    saveWorldProgress now None se tl (S f) worldId progress false s = (Ok tt, s1) /\
    match sanitizeWorldProgress now (spread_with_worldId progress w) with
    | Ok q => p = q
    | Throw _ => p = mkWP (JStr w) [] ["puzzle_1"] now CURRENT_SCHEMA_VERSION
    end /\

    slot s1 = slot s /\ progressEvents s1 = progressEvents s ++ [(JStr w, p)] /\
    fireTimer now None se tl (S f) (nextTimerId s) s1 = (Ok tt, s2) /\
    slot s2 = SlotText (JObj (obj_set (obj_set fs "worlds"
                (JObj (obj_set ws w (storage_record (wp_solvedPuzzles p) (wp_unlockedPuzzles p)
                                                    (wp_lastUpdated p)))))
                "metadata" (JObj (obj_set ms "lastAccessed" (JNum now))))) /\
    assoc_nat w (saveTimeouts s2) = None /\ progressEvents s2 = progressEvents s1.
Proof.
  intros now se tl f worldId progress w fs ws ms s _.
  exact (saveWorldProgress_debounced_save_persists_h now se tl f worldId progress w fs ws ms s).
Qed.

(** X24: [saveWorldProgress] throws exactly when [validateWorldId] rejects the
    world id, after reporting that error; otherwise it returns normally,
    debounced or not, whatever the storage does. *)
Theorem saveWorldProgress_result : forall now ge se tl fuel worldId progress immediate s,
  match validateWorldId worldId with
  | Ok _ => exists s', saveWorldProgress now ge se tl fuel worldId progress immediate s
                       = (Ok tt, s')
  | Throw _ => exists e, saveWorldProgress now ge se tl fuel worldId progress immediate s
                         = (Throw e, push_error e s)
  end.
Proof. exact saveWorldProgress_outcome. Qed.

(** X25: On a valid current document with no world named ["__proto__"],
    [cleanupOldData] writes the document whose [worlds] keeps exactly the
    records last updated after [now] minus thirty days, every other field
    unchanged. *)
Theorem cleanupOldData_keeps_recent_worlds : forall now se tl f fs ws s,
  ~ In "__proto__" (map fst ws) ->
  isStorageAvailable s = true -> slot s = SlotText (JObj fs) ->
  validateStorageData (JObj fs) = true -> get (JObj fs) "version" = JStr "1.0.0" ->
  get (JObj fs) "worlds" = JObj ws ->
  se (cleaned_document now fs ws) = None -> tl (cleaned_document now fs ws) = false ->
  cleanupOldData now None se tl (S (S f)) s = (Ok tt, written (cleaned_document now fs ws) s) /\
  exists ws', get (cleaned_document now fs ws) "worlds" = JObj ws' /\
    (forall k v, In (k, v) ws' <->
       In (k, v) ws /\ exists t, get v "lastUpdated" = JNum t /\ (now - THIRTY_DAYS < t)%Z) /\
    (forall k, k <> "worlds" -> get (cleaned_document now fs ws) k = get (JObj fs) k).
Proof.
  intros now se tl f fs ws s _ Ha Hs Hv Hver Hw Hse Htl. split.
  - exact (cleanupOldData_current_h now se tl f fs ws s Ha Hs Hv Hver Hw Hse Htl).
  - eexists. split; [|split].
    + unfold cleaned_document. simpl get. rewrite assoc_obj_set. reflexivity.
    + intros k v. rewrite filter_In.
      destruct (get v "lastUpdated") eqn:Ht;
        try (split; [intros [_ H]; discriminate H | intros [_ (t & H & _)]; discriminate H]).
      rewrite Z.ltb_lt. split.
      * intros [Hin Hlt]. split; [exact Hin|]. eexists. split; [reflexivity | exact Hlt].
      * intros [Hin (t & Heq & Hlt)]. injection Heq as <-. split; assumption.
    + intros k Hk. unfold cleaned_document. simpl get. rewrite assoc_obj_set.
      apply String.eqb_neq in Hk. rewrite Hk. reflexivity.
Qed.

(** X26: A quota error ([name] QuotaExceededError or [code] 22) below the retry
    limit on a valid current document counts the error, writes the cleaned
    document of [cleanupOldData] and returns [true] without reporting
    anything. *)
Theorem handleStorageError_quota_cleans : forall now se tl f err op r fs ws s,
  String.eqb (ename err) "QuotaExceededError" = true \/ Z.eqb (ecode err) 22 = true ->
  r < 3 ->
  isStorageAvailable s = true -> slot s = SlotText (JObj fs) ->
  validateStorageData (JObj fs) = true -> get (JObj fs) "version" = JStr "1.0.0" ->
  get (JObj fs) "worlds" = JObj ws ->
  se (cleaned_document now fs ws) = None -> tl (cleaned_document now fs ws) = false ->
  handleStorageError now None se tl (S (S (S f))) err op r s
  = (Ok true, written (cleaned_document now fs ws) (count_error s)).
Proof. exact handleStorageError_quota_h. Qed.

(** X27: No storage operation ([getStorageData], [saveStorageData],
    [handleStorageError], [fallbackToMemoryStorage], [repairCorruptedData],
    [attemptStorageReset], [getStorageDataSafe], [cleanupOldData]) changes
    the pending debounced saves. *)
Theorem storage_operations_keep_pending_saves : forall now ge se tl fuel,
  (forall r, keeps_timeouts (getStorageData now ge se tl fuel r)) /\
  (forall d b r, keeps_timeouts (saveStorageData now ge se tl fuel d b r)) /\
  (forall e op r, keeps_timeouts (handleStorageError now ge se tl fuel e op r)) /\
  keeps_timeouts (fallbackToMemoryStorage now ge se tl fuel) /\
  keeps_timeouts (repairCorruptedData now ge se tl fuel) /\
  keeps_timeouts (attemptStorageReset now ge se tl fuel) /\
  keeps_timeouts (getStorageDataSafe now ge se tl fuel) /\
  keeps_timeouts (cleanupOldData now ge se tl fuel).
Proof. exact storage_keeps_timeouts. Qed.

(** ** Instances of the theorems with hypotheses *)

Lemma roundtrip_canonical_witness :
  let p := JObj [("worldId", JStr "w1");
                 ("solvedPuzzles", JSet [JStr "puzzle_2"]);
                 ("unlockedPuzzles", JSet [JStr "puzzle_1"; JStr "puzzle_2"]);
                 ("lastUpdated", JNum 7)] in
  validateWorldProgress p = true /\
  exists rec r,
    transformToStorageFormat p = Ok rec /\
    transformFromStorageFormat (get p "worldId") rec = Ok r /\
    wp_worldId r = get p "worldId" /\
    JNum (wp_lastUpdated r) = get p "lastUpdated" /\
    (forall s, In s (wp_solvedPuzzles r) <-> In (JStr s) [JStr "puzzle_2"]) /\
    (forall s, In s (wp_unlockedPuzzles r) <-> In (JStr s) [JStr "puzzle_1"; JStr "puzzle_2"]).
Proof.
  intros p. split; [reflexivity|].
  apply (roundtrip_canonical p "w1"); try reflexivity;
    repeat constructor; eexists; split; reflexivity.
Defined.

Lemma checkIntegrity_version_mismatch_witness :
  validateStorageData doc_old_version = true /\
  exists issues, checkIntegrity doc_old_version = Ok issues /\ issues <> [] /\
    In (VersionMismatch (JStr "0.9.0")) issues.
Proof.
  split; [reflexivity|].
  apply (checkIntegrity_version_mismatch doc_old_version); [reflexivity|].
  cbv; intros H; discriminate H.
Defined.

Lemma resetWorldProgress_current_document_witness :
  validateStorageData doc_empty_unlocked = true /\
  exists D s', resetWorldProgress 5 None (fun _ => None) (fun _ => false) 5 (JStr "a")
                 (freshService (SlotText doc_empty_unlocked)) = (Ok tt, s') /\
    slot s' = SlotText D /\
    get (get D "worlds") "a" = storage_record [] ["puzzle_1"] 5 /\
    get (get D "worlds") "w1" = storage_record [] [] 0.
Proof.
  split; [reflexivity|].
  destruct (resetWorldProgress_current_document 5 0 (JStr "a") "a"
              (entries doc_empty_unlocked)
              (entries (get doc_empty_unlocked "worlds"))
              (entries (get doc_empty_unlocked "metadata"))
              (freshService (SlotText doc_empty_unlocked)))
    as (D & Ha & Hother & _ & _ & Hok & _); try reflexivity; try discriminate.
  destruct (Hok (fun _ => None) (fun _ => false)) as (s' & Hrun & Hslot & _);
    try reflexivity.
  exists D, s'. split; [exact Hrun|]. split; [exact Hslot|]. split; [exact Ha|].
  rewrite (Hother "w1"); [reflexivity|]. discriminate.
Defined.

Lemma unusable_entry_discards_record_witness :
  let wd := storage_record ["!!"] ["puzzle_1"] 0 in
  migrateWorldData 5 wd = default_world_record 5 /\
  exists e, transformFromStorageFormat (JStr "w1") wd = Throw e.
Proof.
  apply (unusable_entry_discards_record 5 (JStr "w1") _ [JStr "!!"] (JStr "!!")).
  - left; reflexivity.
  - left; reflexivity.
  - exists "!!". split; [reflexivity|]. split; [discriminate | reflexivity].
Defined.

Lemma checkIntegrity_clean_is_current_witness :
  checkIntegrity (JObj (current_fields two_worlds)) = Ok [] /\
  validateStorageData (JObj (current_fields two_worlds)) = true /\
  get (JObj (current_fields two_worlds)) "version" = JStr "1.0.0" /\
  migrateToCurrentVersion 5 (JObj (current_fields two_worlds))
    = JObj (current_fields two_worlds).
Proof.
  assert (H : checkIntegrity (JObj (current_fields two_worlds)) = Ok []) by reflexivity.
  split; [exact H|]. exact (checkIntegrity_clean_is_current 5 _ H).
Defined.

Lemma initializeStorage_empty_writes_default_witness :
  initializeStorage 5 None (fun _ => None) (fun _ => false) 1 (freshService SlotEmpty)
  = (Ok None, written (createDefaultStorageData 5) (freshService SlotEmpty)).
Proof. apply initializeStorage_empty_writes_default; reflexivity. Defined.

Lemma initializeStorage_clean_touches_metadata_witness :
  initializeStorage 5 None (fun _ => None) (fun _ => false) 1
    (freshService (SlotText (JObj (current_fields two_worlds))))
  = (Ok None, written (JObj (obj_set (current_fields two_worlds) "metadata"
                        (JObj [("createdAt", JNum 0); ("lastAccessed", JNum 5)])))
                (freshService (SlotText (JObj (current_fields two_worlds))))).
Proof.
  apply (initializeStorage_clean_touches_metadata 5 (fun _ => None) (fun _ => false) 0
           (current_fields two_worlds) [("createdAt", JNum 0); ("lastAccessed", JNum 0)]);
    reflexivity.
Defined.

Lemma initializeStorage_old_version_repairs_witness :
  exists is, checkIntegrity doc_old_version = Ok (VersionMismatch (JStr "0.9.0") :: is) /\
  initializeStorage 5 None (fun _ => None) (fun _ => false) 1
    (freshService (SlotText doc_old_version)) =
    (Ok None, push_error (ProgressError DATA_CORRUPTION
                ("Data integrity issues: " ++ String.concat ", "
                   (map issue_text (VersionMismatch (JStr "0.9.0") :: is)))%string)
                (written (repairStorageData 5 doc_old_version)
                   (freshService (SlotText doc_old_version)))) /\
  get (repairStorageData 5 doc_old_version) "version" = JStr "0.9.0".
Proof.
  apply initializeStorage_old_version_repairs; try reflexivity. discriminate.
Defined.

Lemma findChangedWorlds_identical_empty_witness :
  findChangedWorlds (JObj (current_fields two_worlds)) (JObj (current_fields two_worlds)) = Ok [].
Proof.
  apply findChangedWorlds_identical_empty; [reflexivity|].
  repeat constructor; simpl; intuition discriminate.
Defined.


Lemma storageEventListener_one_world_changed_witness :
  let r := storage_record ["puzzle_1"; "puzzle_2"] ["puzzle_1"; "puzzle_2"; "puzzle_3"] 9 in
  let p := mkWP (JStr "w1") ["puzzle_1"; "puzzle_2"] ["puzzle_1"; "puzzle_2"; "puzzle_3"] 9 "1.0.0" in
  findChangedWorlds (JObj (current_fields two_worlds))
                    (JObj (current_fields (obj_set two_worlds "w1" r))) = Ok ["w1"] /\
  storageEventListener 5 None (fun _ => None) (fun _ => false) 1 (Some STORAGE_KEY)
    (SlotText (JObj (current_fields (obj_set two_worlds "w1" r))))
    (SlotText (JObj (current_fields two_worlds)))
    (freshService (SlotText (JObj (current_fields two_worlds))))
  = (Ok tt, push_progress (JStr "w1", p) (freshService (SlotText (JObj (current_fields two_worlds))))).
Proof.
  intros r p.
  apply (storageEventListener_one_world_changed 5 None (fun _ => None) (fun _ => false) 1
           _ _ two_worlds "w1" r p); try reflexivity.
  - repeat constructor; simpl; intuition discriminate.
  - left. simpl. discriminate.
Defined.

Lemma storageEventListener_cleared_writes_default_witness :
  exists s', storageEventListener 5 None (fun _ => None) (fun _ => false) 2 (Some STORAGE_KEY)
               SlotEmpty (SlotText (JObj (current_fields two_worlds))) (freshService SlotEmpty)
             = (Ok tt, s') /\
    slot s' = SlotText (createDefaultStorageData 5) /\
    progressEvents s' = progressEvents (freshService SlotEmpty).
Proof. apply storageEventListener_cleared_writes_default; try reflexivity. discriminate. Defined.

Lemma getWorldProgress_missing_world_default_witness :
  getWorldProgress 5 None (fun _ => None) (fun _ => false) 1 (JStr "w9")
    (freshService (SlotText (JObj (current_fields two_worlds)))) =
    (Ok (mkWP (JStr "w9") [] ["puzzle_1"] 5 CURRENT_SCHEMA_VERSION),
     freshService (SlotText (JObj (current_fields two_worlds)))).
Proof.
  apply (getWorldProgress_missing_world_default 5 _ _ 0 (JStr "w9") "w9"
           (current_fields two_worlds) two_worlds); try reflexivity.
  simpl. intuition discriminate.
Defined.

Lemma getWorldProgress_unusable_entry_default_witness :
  exists e, getWorldProgress 5 None (fun _ => None) (fun _ => false) 1 (JStr "w1")
    (freshService (SlotText (JObj (current_fields unusable_worlds)))) =
    (Ok (mkWP (JStr "w1") [] ["puzzle_1"] 5 CURRENT_SCHEMA_VERSION),
     push_error e (freshService (SlotText (JObj (current_fields unusable_worlds))))).
Proof.
  apply (getWorldProgress_unusable_entry_default 5 _ _ 0 (JStr "w1") "w1"
           (current_fields unusable_worlds) unusable_worlds [JStr "!!"] (JStr "!!"));
    try reflexivity.
  - left; reflexivity.
  - left; reflexivity.
  - exists "!!". split; [reflexivity|]. split; [discriminate | reflexivity].
Defined.

Lemma saveWorldProgress_debounce_schedules_witness :
  let s := pendingService (mkWP (JStr "w1") [] ["puzzle_1"] 0 "1.0.0") in
  exists p s', saveWorldProgress 5 None (fun _ => None) (fun _ => false) 1 (JStr "w1")
                 (JObj [("worldId", JStr "w1"); ("solvedPuzzles", JArr [JStr "puzzle_1"])])
                 false s = (Ok tt, s') /\
    match sanitizeWorldProgress 5 (spread_with_worldId
            (JObj [("worldId", JStr "w1"); ("solvedPuzzles", JArr [JStr "puzzle_1"])]) "w1") with
    | Ok q => p = q
    | Throw _ => p = mkWP (JStr "w1") [] ["puzzle_1"] 5 CURRENT_SCHEMA_VERSION
    end /\
    progress_canonical p /\ isStorageAvailable s' = isStorageAvailable s /\
    slot s' = slot s /\ inMemoryStorage s' = inMemoryStorage s /\
    assoc_nat "w1" (saveTimeouts s') = Some 1 /\
    (forall k, k <> "w1" -> assoc_nat k (saveTimeouts s') = assoc_nat k (saveTimeouts s)) /\
    find (fun '(i, _) => Nat.eqb i 1) (timers s') = Some (1, TDebouncedSave "w1" p) /\
    (forall id, assoc_nat "w1" (saveTimeouts s) = Some id ->
       find (fun '(i, _) => Nat.eqb i id) (timers s') = None) /\
    progressEvents s' = progressEvents s ++ [(JStr "w1", p)].
Proof.
  intros s. apply (saveWorldProgress_debounce_schedules 5 None _ _ 1 (JStr "w1") _ "w1" s).
  - reflexivity.
  - repeat constructor.
  - simpl. intros id H. injection H as <-. lia.
Defined.

Lemma fireTimer_debounced_clears_entry_witness :
  let s := pendingService (mkWP (JStr "w1") [] ["puzzle_1"] 0 "1.0.0") in
  exists s', fireTimer 5 None (fun _ => None) (fun _ => false) 1 0 s = (Ok tt, s') /\
    assoc_nat "w1" (saveTimeouts s') = None /\
    (forall k, k <> "w1" -> assoc_nat k (saveTimeouts s') = assoc_nat k (saveTimeouts s)).
Proof.
  intros s. apply (fireTimer_debounced_clears_entry 5 None _ _ 1 0 0 "w1"
                     (mkWP (JStr "w1") [] ["puzzle_1"] 0 "1.0.0") s).
  reflexivity.
Defined.

Lemma debounced_save_persists_witness :
  let s := freshService (SlotText (JObj (current_fields two_worlds))) in
  exists p s1 s2,
    saveWorldProgress 5 None (fun _ => None) (fun _ => false) 1 (JStr "w2")
      (JObj [("worldId", JStr "w2"); ("solvedPuzzles", JArr [JStr "puzzle_1"])])
      false s = (Ok tt, s1) /\
    match sanitizeWorldProgress 5 (spread_with_worldId
            (JObj [("worldId", JStr "w2"); ("solvedPuzzles", JArr [JStr "puzzle_1"])]) "w2") with
    | Ok q => p = q
    | Throw _ => p = mkWP (JStr "w2") [] ["puzzle_1"] 5 CURRENT_SCHEMA_VERSION
    end /\
    slot s1 = slot s /\ progressEvents s1 = progressEvents s ++ [(JStr "w2", p)] /\
    fireTimer 5 None (fun _ => None) (fun _ => false) 1 0 s1 = (Ok tt, s2) /\
    slot s2 = SlotText (JObj (obj_set (obj_set (current_fields two_worlds) "worlds"
                (JObj (obj_set two_worlds "w2"
                         (storage_record (wp_solvedPuzzles p) (wp_unlockedPuzzles p)
                                         (wp_lastUpdated p)))))
                "metadata" (JObj [("createdAt", JNum 0); ("lastAccessed", JNum 5)]))) /\
    assoc_nat "w2" (saveTimeouts s2) = None /\ progressEvents s2 = progressEvents s1.
Proof.
  intros s.
  apply (debounced_save_persists 5 _ _ 0 (JStr "w2") _ "w2" (current_fields two_worlds)
           two_worlds [("createdAt", JNum 0); ("lastAccessed", JNum 0)] s);
    try reflexivity.
  - discriminate.
  - constructor.
  - simpl. discriminate.
Defined.

Lemma cleanupOldData_keeps_recent_worlds_witness :
  let now := (THIRTY_DAYS + 10)%Z in
  let s := freshService (SlotText (JObj (current_fields two_worlds))) in
  cleanupOldData now None (fun _ => None) (fun _ => false) 2 s
    = (Ok tt, written (cleaned_document now (current_fields two_worlds) two_worlds) s) /\
  exists ws', get (cleaned_document now (current_fields two_worlds) two_worlds) "worlds" = JObj ws' /\
    (forall k v, In (k, v) ws' <->
       In (k, v) two_worlds /\ exists t, get v "lastUpdated" = JNum t /\ (now - THIRTY_DAYS < t)%Z) /\
    (forall k, k <> "worlds" ->
       get (cleaned_document now (current_fields two_worlds) two_worlds) k
       = get (JObj (current_fields two_worlds)) k).
Proof.
  intros now s. apply cleanupOldData_keeps_recent_worlds; try reflexivity.
  simpl. intuition discriminate.
Defined.

Lemma handleStorageError_quota_cleans_witness :
  let s := freshService (SlotText (JObj (current_fields two_worlds))) in
  handleStorageError 5 None (fun _ => None) (fun _ => false) 3 QuotaErrorExc "save" 0 s
  = (Ok true, written (cleaned_document 5 (current_fields two_worlds) two_worlds) (count_error s)).
Proof.
  intros s. apply handleStorageError_quota_cleans; try reflexivity.
  - left; reflexivity.
  - lia.
Defined.
